(** * The agent demo client of FluffyUI: address parsing and the
      line-delimited JSON call

    A shallow embedding of [examples/ai-agent-demo/agent.py]: the two
    functions [parse_addr] and [send], over a model of the Python values
    and built-ins they use. *)

From Stdlib Require Import List NArith ZArith Bool Lia String Ascii.
From Stdlib Require Import DecimalString.
From Stdlib Require DecimalPos.
Import ListNotations.

Local Open Scope N_scope.

(** ** Python values used by the script *)

(** A Python [str] is a sequence of Unicode code points; a [bytes] object
    is a sequence of octets. *)
Definition str := list N.
Definition bytes := list N.

(** The text of a literal of the script. *)
Definition lit (s : string) : str :=
  map N_of_ascii (list_ascii_of_string s).

(** The exceptions the two functions can raise.  [ValueError] and
    [RuntimeError] carry the message of the [raise] statement of the
    script; the others are raised by built-ins and the [json] module
    ([InvalidLiteral] is the [ValueError] of [int], [JSONDecodeError] and
    [UnicodeDecodeError] are subclasses of [ValueError]). *)
Inductive exn : Type :=
| ValueError (msg : string)
| InvalidLiteral (text : str)
| RuntimeError (msg : string)
| TypeError
| UnicodeEncodeError
| UnicodeDecodeError
| JSONDecodeError.

(** A pure computation that may raise. *)
Inductive result (A : Type) : Type :=
| Ok (a : A)
| Err (e : exn).
Arguments Ok {A} a.
Arguments Err {A} e.

(** ** String built-ins *)

Module Str.

(** [s.startswith(p)] *)
Fixpoint startswith (p s : str) : bool :=
  match p, s with
  | [], _ => true
  | _ :: _, [] => false
  | a :: p', b :: s' => (a =? b) && startswith p' s'
  end.

(** [s == t] *)
Fixpoint eqb (s t : str) : bool :=
  match s, t with
  | [], [] => true
  | a :: s', b :: t' => (a =? b) && eqb s' t'
  | _, _ => false
  end.

(** [s[n:]] for a non-negative [n] *)
Definition slice_from (n : nat) (s : str) : str := skipn n s.

(** [p in s] *)
Fixpoint contains (p s : str) : bool :=
  startswith p s ||
  match s with
  | [] => false
  | _ :: s' => contains p s'
  end.

(** [s.rfind(p)]: the highest index at which [p] occurs in [s]. *)
Fixpoint rfind (p s : str) : option nat :=
  match s with
  | [] => if startswith p [] then Some O else None
  | _ :: s' =>
      match rfind p s' with
      | Some i => Some (S i)
      | None => if startswith p s then Some O else None
      end
  end.

(** [s.rsplit(sep, 1)] for a non-empty [sep]: at most one split, made
    at the last occurrence of the separator. *)
Definition rsplit1 (sep s : str) : list str :=
  match rfind sep s with
  | None => [s]
  | Some i => [firstn i s; skipn (i + List.length sep) s]
  end.

End Str.

(** ** [int(text)] in base 10 *)

Module Int.

(** The white space of C's [isspace] in the C locale ([Py_ISSPACE]). *)
Definition ascii_space (c : N) : bool :=
  ((9 <=? c) && (c <=? 13)) || (c =? 32).

(** The code points from U+007F up for which [str.isspace] holds. *)
Definition unicode_spaces : list N :=
  [0x85; 0xA0; 0x1680; 0x2000; 0x2001; 0x2002; 0x2003; 0x2004; 0x2005;
   0x2006; 0x2007; 0x2008; 0x2009; 0x200A; 0x2028; 0x2029; 0x202F;
   0x205F; 0x3000].

Definition unicode_space (c : N) : bool :=
  existsb (N.eqb c) unicode_spaces.

(** The digit zero of every decimal digit range of the Unicode
    database (general category Nd) outside ASCII; each range holds the
    ten digits in order. *)
Definition decimal_zeros : list N :=
  [0x660; 0x6F0; 0x7C0; 0x966; 0x9E6; 0xA66; 0xAE6; 0xB66;
   0xBE6; 0xC66; 0xCE6; 0xD66; 0xDE6; 0xE50; 0xED0; 0xF20;
   0x1040; 0x1090; 0x17E0; 0x1810; 0x1946; 0x19D0; 0x1A80; 0x1A90;
   0x1B50; 0x1BB0; 0x1C40; 0x1C50; 0xA620; 0xA8D0; 0xA900; 0xA9D0;
   0xA9F0; 0xAA50; 0xABF0; 0xFF10; 0x104A0; 0x10D30; 0x11066; 0x110F0;
   0x11136; 0x111D0; 0x112F0; 0x11450; 0x114D0; 0x11650; 0x116C0; 0x11730;
   0x118E0; 0x11950; 0x11C50; 0x11D50; 0x11DA0; 0x16A60; 0x16AC0; 0x16B50;
   0x1D7CE; 0x1D7D8; 0x1D7E2; 0x1D7EC; 0x1D7F6; 0x1E140; 0x1E2F0; 0x1E950;
   0x1FBF0].

(** [Py_UNICODE_TODECIMAL] on a code point outside ASCII. *)
Definition to_decimal (c : N) : option N :=
  match find (fun z => (z <=? c) && (c <? z + 10)) decimal_zeros with
  | Some z => Some (c - z)
  | None => None
  end.

(** The first pass of [int] over a [str]: code points below U+007F are
    kept, other white space becomes a blank, other decimal digits
    become ASCII digits and anything else becomes ['?']. *)
Definition to_ascii (c : N) : N :=
  if c <? 127 then c
  else if unicode_space c then 32
  else match to_decimal c with
       | Some d => 48 + d
       | None => 63
       end.

Definition is_digit (c : N) : bool := (48 <=? c) && (c <=? 57).

Definition digit_value (c : N) : Z := Z.of_N (c - 48).

Fixpoint skip_spaces (s : str) : str :=
  match s with
  | c :: s' => if ascii_space c then skip_spaces s' else s
  | [] => []
  end.

(** The digits of the literal after a first digit, of accumulated
    value [acc]: digits, and single underscores between two digits.
    Returns the value and the text that follows. *)
Fixpoint digits (acc : Z) (s : str) : option (Z * str) :=
  match s with
  | [] => Some (acc, [])
  | c :: s' =>
      if is_digit c then digits (10 * acc + digit_value c) s'
      else if c =? 95 then
        match s' with
        | d :: s'' =>
            if is_digit d then digits (10 * acc + digit_value d) s''
            else None
        | [] => None
        end
      else Some (acc, s)
  end.

(** An unsigned literal followed by optional white space up to the
    end of the text. *)
Definition unsigned (s : str) : option Z :=
  match s with
  | c :: s' =>
      if is_digit c then
        match digits (digit_value c) s' with
        | Some (v, rest) =>
            match skip_spaces rest with
            | [] => Some v
            | _ :: _ => None
            end
        | None => None
        end
      else None
  | [] => None
  end.

(** [int(text)]: optional white space, an optional sign, the digits,
    optional white space.  [None] stands for the [ValueError] of an
    invalid literal.  The value is an unbounded integer; the
    interpreter's optional limit on the number of digits of a literal
    is taken as switched off. *)
Definition parse (text : str) : option Z :=
  match skip_spaces (map to_ascii text) with
  | c :: s' =>
      if c =? 43 then unsigned s'
      else if c =? 45 then option_map Z.opp (unsigned s')
      else unsigned (c :: s')
  | [] => None
  end.

End Int.

(** ** [parse_addr] *)

Definition parse_addr (raw : str) : result (str * Z) :=
  let raw := if Str.startswith (lit "tcp:") raw then Str.slice_from 4 raw
             else raw in
  if Str.startswith (lit "unix:") raw then
    Err (ValueError "unix sockets are not supported in this demo")
  else if negb (Str.contains (lit ":") raw) then
    Err (ValueError "expected host:port")
  else
    match Str.rsplit1 (lit ":") raw with
    | [host; port] =>
        match Int.parse port with
        | Some n => Ok (host, n)
        | None => Err (InvalidLiteral port)
        end
    | _ => Err (ValueError "not enough values to unpack")
    end.

(** ** Python objects exchanged with the agent *)

(** The objects [json.dumps] may be given and [json.loads] may return.
    A [dict] lists its items in insertion order.  A [float] is given by
    the JSON token that denotes it (rounding to binary64 is outside the
    model); [bytes] stands for the objects that have no JSON form. *)
#[local] Set Warnings "-register-all".
Inductive pyvalue : Type :=
| PyNone
| PyBool (b : bool)
| PyInt (n : Z)
| PyFloat (token : str)
| PyStr (s : str)
| PyBytes (b : bytes)
| PyList (items : list pyvalue)
| PyTuple (items : list pyvalue)
| PyDict (items : list (pyvalue * pyvalue)).

(** ** The codec [utf-8] *)

Module Utf8.

(** [text.encode("utf-8")] of one code point; surrogates have no
    encoding. *)
Definition encode_char (c : N) : option bytes :=
  if c <? 0x80 then Some [c]
  else if c <? 0x800 then Some [0xC0 + c / 64; 0x80 + c mod 64]
  else if (0xD800 <=? c) && (c <=? 0xDFFF) then None
  else if c <? 0x10000 then
    Some [0xE0 + c / 4096; 0x80 + (c / 64) mod 64; 0x80 + c mod 64]
  else if c <? 0x110000 then
    Some [0xF0 + c / 262144; 0x80 + (c / 4096) mod 64;
          0x80 + (c / 64) mod 64; 0x80 + c mod 64]
  else None.

Fixpoint encode_chars (text : str) : option bytes :=
  match text with
  | [] => Some []
  | c :: text' =>
      match encode_char c, encode_chars text' with
      | Some b, Some bs => Some (b ++ bs)
      | _, _ => None
      end
  end.

Definition encode (text : str) : result bytes :=
  match encode_chars text with
  | Some b => Ok b
  | None => Err UnicodeEncodeError
  end.

(** The decoder reads the octets from left to right.  Between two
    characters it is in [Start]; inside a character it has read the
    bits [cp], accepts the next octet in the range [lo..hi] only (which
    rules out overlong forms, surrogates and code points above
    U+10FFFF) and expects [more] octets after that one. *)
Inductive dstate : Type :=
| Start
| Inside (more : nat) (cp lo hi : N).

Definition dstep (st : str * dstate) (b : N) : option (str * dstate) :=
  let '(out, d) := st in
  match d with
  | Start =>
      if b <? 0x80 then Some (b :: out, Start)
      else if (0xC2 <=? b) && (b <=? 0xDF) then
        Some (out, Inside 0 (b - 0xC0) 0x80 0xBF)
      else if b =? 0xE0 then Some (out, Inside 1 0 0xA0 0xBF)
      else if b =? 0xED then Some (out, Inside 1 0xD 0x80 0x9F)
      else if (0xE1 <=? b) && (b <=? 0xEF) then
        Some (out, Inside 1 (b - 0xE0) 0x80 0xBF)
      else if b =? 0xF0 then Some (out, Inside 2 0 0x90 0xBF)
      else if (0xF1 <=? b) && (b <=? 0xF3) then
        Some (out, Inside 2 (b - 0xF0) 0x80 0xBF)
      else if b =? 0xF4 then Some (out, Inside 2 4 0x80 0x8F)
      else None
  | Inside more cp lo hi =>
      if (lo <=? b) && (b <=? hi) then
        let cp' := cp * 64 + (b - 0x80) in
        match more with
        | O => Some (cp' :: out, Start)
        | S more' => Some (out, Inside more' cp' 0x80 0xBF)
        end
      else None
  end.

Definition feed (st : option (str * dstate)) (b : N)
  : option (str * dstate) :=
  match st with
  | Some st => dstep st b
  | None => None
  end.

Definition finish (st : option (str * dstate)) : option str :=
  match st with
  | Some (out, Start) => Some (rev out)
  | _ => None
  end.

Definition decode_chars (data : bytes) : option str :=
  finish (fold_left feed data (Some ([], Start))).

(** [data.decode("utf-8")] *)
Definition decode (data : bytes) : result str :=
  match decode_chars data with
  | Some text => Ok text
  | None => Err UnicodeDecodeError
  end.

End Utf8.

(** ** The module [json] *)

Module Json.

(** *** [json.dumps] with its default options *)

(** [repr] of an [int] *)
Definition int_repr (n : Z) : str :=
  lit (DecimalString.NilEmpty.string_of_int (Z.to_int n)).

Definition hex_digit (d : N) : N :=
  if d <? 10 then 48 + d else 87 + d.

(** The six characters of a [backslash-u] escape of a 16 bit unit *)
Definition u_escape (c : N) : str :=
  [92; 117; hex_digit ((c / 4096) mod 16); hex_digit ((c / 256) mod 16);
   hex_digit ((c / 16) mod 16); hex_digit (c mod 16)].

(** One character of a string, with [ensure_ascii]: the short escapes,
    the printable ASCII characters as they are, and every other
    character as one escape or as a surrogate pair of escapes. *)
Definition escape_char (c : N) : str :=
  if c =? 34 then [92; 34]
  else if c =? 92 then [92; 92]
  else if c =? 10 then [92; 110]
  else if c =? 13 then [92; 114]
  else if c =? 9 then [92; 116]
  else if c =? 8 then [92; 98]
  else if c =? 12 then [92; 102]
  else if (32 <=? c) && (c <=? 126) then [c]
  else if c <? 0x10000 then u_escape c
  else
    let v := c - 0x10000 in
    u_escape (0xD800 + (v / 1024) mod 1024) ++ u_escape (0xDC00 + v mod 1024).

Definition encode_str (s : str) : str :=
  [34] ++ flat_map escape_char s ++ [34].

(** The text of a key of a [dict]; other keys are a [TypeError]. *)
Definition key_text (k : pyvalue) : option str :=
  match k with
  | PyStr s => Some s
  | PyFloat token => Some token
  | PyBool true => Some (lit "true")
  | PyBool false => Some (lit "false")
  | PyNone => Some (lit "null")
  | PyInt n => Some (int_repr n)
  | _ => None
  end.

(** [sep.join(parts)] *)
Fixpoint join (sep : str) (parts : list str) : str :=
  match parts with
  | [] => []
  | [p] => p
  | p :: parts' => p ++ sep ++ join sep parts'
  end.

(** The text of an object, [None] when some part of it has no JSON
    form. *)
Fixpoint dumps_text (v : pyvalue) : option str :=
  match v with
  | PyNone => Some (lit "null")
  | PyBool true => Some (lit "true")
  | PyBool false => Some (lit "false")
  | PyInt n => Some (int_repr n)
  | PyFloat token => Some token
  | PyStr s => Some (encode_str s)
  | PyBytes _ => None
  | PyList items | PyTuple items =>
      let fix each (l : list pyvalue) : option (list str) :=
        match l with
        | [] => Some []
        | x :: l' =>
            match dumps_text x, each l' with
            | Some t, Some ts => Some (t :: ts)
            | _, _ => None
            end
        end in
      match each items with
      | Some ts => Some ([91] ++ join (lit ", ") ts ++ [93])
      | None => None
      end
  | PyDict items =>
      let fix each (l : list (pyvalue * pyvalue)) : option (list str) :=
        match l with
        | [] => Some []
        | (k, x) :: l' =>
            match key_text k, dumps_text x, each l' with
            | Some kt, Some t, Some ts =>
                Some ((encode_str kt ++ lit ": " ++ t) :: ts)
            | _, _, _ => None
            end
        end in
      match each items with
      | Some ts => Some ([123] ++ join (lit ", ") ts ++ [125])
      | None => None
      end
  end.

Definition dumps (v : pyvalue) : result str :=
  match dumps_text v with
  | Some text => Ok text
  | None => Err TypeError
  end.

(** *** [json.loads]

    The decoder accepts a text by reading it once from left to right;
    it is given here as the pushdown automaton that reads one code
    point at a time and keeps the containers that are still open on a
    stack.  The depth of nesting is not bounded (the interpreter's
    recursion limit is outside the model). *)

Definition is_ws (c : N) : bool :=
  (c =? 32) || (c =? 9) || (c =? 10) || (c =? 13).

Definition is_digit (c : N) : bool := (48 <=? c) && (c <=? 57).

Definition hex_value (c : N) : option N :=
  if (48 <=? c) && (c <=? 57) then Some (c - 48)
  else if (97 <=? c) && (c <=? 102) then Some (c - 87)
  else if (65 <=? c) && (c <=? 70) then Some (c - 55)
  else None.

(** The character a short escape stands for *)
Definition unescape (c : N) : option N :=
  if c =? 34 then Some 34
  else if c =? 92 then Some 92
  else if c =? 47 then Some 47
  else if c =? 98 then Some 8
  else if c =? 102 then Some 12
  else if c =? 110 then Some 10
  else if c =? 114 then Some 13
  else if c =? 116 then Some 9
  else None.

Definition is_high (c : N) : bool := (0xD800 <=? c) && (c <=? 0xDBFF).
Definition is_low (c : N) : bool := (0xDC00 <=? c) && (c <=? 0xDFFF).
Definition join_surrogates (hi lo : N) : N :=
  0x10000 + ((hi - 0xD800) * 1024 + (lo - 0xDC00)).

(** Inside a string: among plain characters, after a backslash, inside
    the four hexadecimal digits of an escape ([more] digits after the
    next one), and the same three places right after the escape of a
    high surrogate [hi] that may still be paired. *)
Inductive sstate : Type :=
| SChars
| SEsc
| SHex (more : nat) (v : N)
| SHi (hi : N)
| SHiEsc (hi : N)
| SHiHex (hi : N) (more : nat) (v : N).

(** What one character makes of a string: it goes on, with the
    characters read so far (last first), or it is closed. *)
Inductive sresult : Type :=
| SMore (out : str) (st : sstate)
| SClosed (s : str).

Definition plain (out : str) (c : N) : option sresult :=
  if c =? 34 then Some (SClosed (rev out))
  else if c =? 92 then Some (SMore out SEsc)
  else if c <? 32 then None
  else Some (SMore (c :: out) SChars).

Definition escaped (out : str) (c : N) : option sresult :=
  if c =? 117 then Some (SMore out (SHex 3 0))
  else match unescape c with
       | Some x => Some (SMore (x :: out) SChars)
       | None => None
       end.

(** A complete escape of value [v] *)
Definition escape_unit (out : str) (v : N) : sresult :=
  if is_high v then SMore out (SHi v) else SMore (v :: out) SChars.

Definition sstep (out : str) (st : sstate) (c : N) : option sresult :=
  match st with
  | SChars => plain out c
  | SEsc => escaped out c
  | SHex more v =>
      match hex_value c with
      | Some d =>
          match more with
          | O => Some (escape_unit out (16 * v + d))
          | S more' => Some (SMore out (SHex more' (16 * v + d)))
          end
      | None => None
      end
  | SHi hi =>
      if c =? 92 then Some (SMore out (SHiEsc hi)) else plain (hi :: out) c
  | SHiEsc hi =>
      if c =? 117 then Some (SMore out (SHiHex hi 3 0))
      else escaped (hi :: out) c
  | SHiHex hi more v =>
      match hex_value c with
      | Some d =>
          match more with
          | O =>
              if is_low (16 * v + d)
              then Some (SMore (join_surrogates hi (16 * v + d) :: out) SChars)
              else Some (escape_unit (hi :: out) (16 * v + d))
          | S more' => Some (SMore out (SHiHex hi more' (16 * v + d)))
          end
      | None => None
      end
  end.

(** Inside a number: after the sign, after a leading zero, in the
    integer digits, after the point, in the fraction, after the
    exponent mark, after the sign of the exponent, in the exponent. *)
Inductive nstate : Type :=
| NMinus | NZero | NInt | NDot | NFrac | NE | NESign | NExp.

Inductive nresult : Type :=
| NMore (st : nstate)
| NInfinity
| NStop
| NBad.

Definition is_e (c : N) : bool := (c =? 101) || (c =? 69).

Definition nstep (st : nstate) (c : N) : nresult :=
  match st with
  | NMinus =>
      if c =? 48 then NMore NZero
      else if is_digit c then NMore NInt
      else if c =? 73 then NInfinity
      else NBad
  | NZero =>
      if c =? 46 then NMore NDot
      else if is_e c then NMore NE
      else NStop
  | NInt =>
      if is_digit c then NMore NInt
      else if c =? 46 then NMore NDot
      else if is_e c then NMore NE
      else NStop
  | NDot => if is_digit c then NMore NFrac else NBad
  | NFrac =>
      if is_digit c then NMore NFrac
      else if is_e c then NMore NE
      else NStop
  | NE =>
      if (c =? 43) || (c =? 45) then NMore NESign
      else if is_digit c then NMore NExp
      else NBad
  | NESign => if is_digit c then NMore NExp else NBad
  | NExp => if is_digit c then NMore NExp else NStop
  end.

(** The number a token stands for when the text ends or goes on with
    something else: an [int] without fraction and exponent, a [float]
    otherwise; [None] when the token is not complete. *)
Definition number_value (st : nstate) (token : str) : option pyvalue :=
  match st with
  | NZero | NInt =>
      match Int.parse token with
      | Some n => Some (PyInt n)
      | None => None
      end
  | NFrac | NExp => Some (PyFloat token)
  | _ => None
  end.

Inductive literal : Type :=
| LNull | LTrue | LFalse | LNaN | LInfinity | LMinusInfinity.

Definition literal_text (l : literal) : str :=
  match l with
  | LNull => lit "null"
  | LTrue => lit "true"
  | LFalse => lit "false"
  | LNaN => lit "NaN"
  | LInfinity => lit "Infinity"
  | LMinusInfinity => lit "-Infinity"
  end.

Definition literal_value (l : literal) : pyvalue :=
  match l with
  | LNull => PyNone
  | LTrue => PyBool true
  | LFalse => PyBool false
  | l => PyFloat (literal_text l)
  end.

(** [dict(pairs)]: a key that comes again keeps its place and takes
    the later value. *)
Fixpoint dict_set (k : str) (v : pyvalue) (d : list (pyvalue * pyvalue))
  : list (pyvalue * pyvalue) :=
  match d with
  | [] => [(PyStr k, v)]
  | (PyStr k', v') :: d' =>
      if Str.eqb k' k then (PyStr k', v) :: d'
      else (PyStr k', v') :: dict_set k v d'
  | item :: d' => item :: dict_set k v d'
  end.

Definition dict_of (pairs : list (str * pyvalue))
  : list (pyvalue * pyvalue) :=
  fold_left (fun d kv => dict_set (fst kv) (snd kv) d) pairs [].

(** A container that is still open: an array with the items read so
    far, or an object with the pairs read so far and the key whose
    value is being read (both last first). *)
Inductive frame : Type :=
| InArray (items : list pyvalue)
| InObject (pairs : list (str * pyvalue)) (key : str).

(** Where the decoder is. *)
Inductive mode : Type :=
| Value
| ArrayOpen
| ObjectOpen
| Key (pairs : list (str * pyvalue))
| KeyStr (pairs : list (str * pyvalue)) (out : str) (st : sstate)
| Colon (pairs : list (str * pyvalue)) (key : str)
| InStr (out : str) (st : sstate)
| Num (st : nstate) (token : str)
| Lit (l : literal) (seen : nat)
| ArrayItem (items : list pyvalue)
| ObjectItem (pairs : list (str * pyvalue))
| Done (v : pyvalue).

Definition config : Type := mode * list frame.

(** A value is complete: it goes into the innermost open container. *)
Definition deliver (v : pyvalue) (stack : list frame) : config :=
  match stack with
  | [] => (Done v, [])
  | InArray items :: stack' => (ArrayItem (v :: items), stack')
  | InObject pairs key :: stack' => (ObjectItem ((key, v) :: pairs), stack')
  end.

(** After a value *)
Definition after (cf : config) (c : N) : option config :=
  let '(m, stack) := cf in
  match m with
  | ArrayItem items =>
      if is_ws c then Some cf
      else if c =? 44 then Some (Value, InArray items :: stack)
      else if c =? 93 then Some (deliver (PyList (rev items)) stack)
      else None
  | ObjectItem pairs =>
      if is_ws c then Some cf
      else if c =? 44 then Some (Key pairs, stack)
      else if c =? 125 then
        Some (deliver (PyDict (dict_of (rev pairs))) stack)
      else None
  | Done _ => if is_ws c then Some cf else None
  | _ => None
  end.

(** The first character of a value *)
Definition start (stack : list frame) (c : N) : option config :=
  if c =? 34 then Some (InStr [] SChars, stack)
  else if c =? 123 then Some (ObjectOpen, stack)
  else if c =? 91 then Some (ArrayOpen, stack)
  else if c =? 110 then Some (Lit LNull 1, stack)
  else if c =? 116 then Some (Lit LTrue 1, stack)
  else if c =? 102 then Some (Lit LFalse 1, stack)
  else if c =? 78 then Some (Lit LNaN 1, stack)
  else if c =? 73 then Some (Lit LInfinity 1, stack)
  else if c =? 45 then Some (Num NMinus [c], stack)
  else if c =? 48 then Some (Num NZero [c], stack)
  else if is_digit c then Some (Num NInt [c], stack)
  else None.

Definition step (cf : config) (c : N) : option config :=
  let '(m, stack) := cf in
  match m with
  | Value => if is_ws c then Some cf else start stack c
  | ArrayOpen =>
      if is_ws c then Some cf
      else if c =? 93 then Some (deliver (PyList []) stack)
      else start (InArray [] :: stack) c
  | ObjectOpen =>
      if is_ws c then Some cf
      else if c =? 125 then Some (deliver (PyDict []) stack)
      else if c =? 34 then Some (KeyStr [] [] SChars, stack)
      else None
  | Key pairs =>
      if is_ws c then Some cf
      else if c =? 34 then Some (KeyStr pairs [] SChars, stack)
      else None
  | KeyStr pairs out st =>
      match sstep out st c with
      | Some (SMore out' st') => Some (KeyStr pairs out' st', stack)
      | Some (SClosed key) => Some (Colon pairs key, stack)
      | None => None
      end
  | Colon pairs key =>
      if is_ws c then Some cf
      else if c =? 58 then Some (Value, InObject pairs key :: stack)
      else None
  | InStr out st =>
      match sstep out st c with
      | Some (SMore out' st') => Some (InStr out' st', stack)
      | Some (SClosed s) => Some (deliver (PyStr s) stack)
      | None => None
      end
  | Num st token =>
      match nstep st c with
      | NMore st' => Some (Num st' (token ++ [c]), stack)
      | NInfinity => Some (Lit LMinusInfinity 2, stack)
      | NStop =>
          match number_value st token with
          | Some v => after (deliver v stack) c
          | None => None
          end
      | NBad => None
      end
  | Lit l seen =>
      match nth_error (literal_text l) seen with
      | Some expected =>
          if c =? expected then
            if Nat.eqb (S seen) (List.length (literal_text l))
            then Some (deliver (literal_value l) stack)
            else Some (Lit l (S seen), stack)
          else None
      | None => None
      end
  | ArrayItem _ | ObjectItem _ | Done _ => after cf c
  end.

Definition feed (cf : option config) (c : N) : option config :=
  match cf with
  | Some cf => step cf c
  | None => None
  end.

(** At the end of the text: a value must be complete and no container
    open; a number that the end of the text completes counts. *)
Definition finish (cf : option config) : option pyvalue :=
  match cf with
  | Some (Done v, []) => Some v
  | Some (Num st token, []) => number_value st token
  | _ => None
  end.

Definition loads_text (text : str) : option pyvalue :=
  finish (fold_left feed text (Some (Value, []))).

Definition loads (text : str) : result pyvalue :=
  match loads_text text with
  | Some v => Ok v
  | None => Err JSONDecodeError
  end.

End Json.

(** ** The file object of the socket *)

(** The calls made on the file object. *)
Inductive event : Type :=
| EvWrite (data : bytes)
| EvFlush
| EvReadline (line : bytes).

(** [sock.makefile("rwb")]: a buffered file object over a connected
    stream socket.  [pending] is what has been written and is still in
    the buffer of the file object, [sent] what has been handed to the
    transport, [incoming] what the peer sends from now on and the script
    has not read yet; [peer_closed] tells whether the peer closes its
    side after that.  The transport is taken as reliable: it accepts
    every octet it is handed.  [calls] records the calls made so far, the
    oldest first. *)
Record sock_file : Type := SockFile {
  pending : bytes;
  sent : bytes;
  incoming : bytes;
  peer_closed : bool;
  calls : list event
}.

(** How a call on the connection ends: it returns, it raises, or it
    waits for the peer for ever. *)
Inductive outcome (A : Type) : Type :=
| Returns (a : A)
| Raises (e : exn)
| Blocks.
Arguments Returns {A} a.
Arguments Raises {A} e.
Arguments Blocks {A}.

(** A computation on the connection. *)
Definition io (A : Type) : Type := sock_file -> outcome A * sock_file.

Definition ret {A} (a : A) : io A := fun f => (Returns a, f).

Definition raise {A} (e : exn) : io A := fun f => (Raises e, f).

Definition bind {A B} (m : io A) (k : A -> io B) : io B :=
  fun f =>
    match m f with
    | (Returns a, f') => k a f'
    | (Raises e, f') => (Raises e, f')
    | (Blocks, f') => (Blocks, f')
    end.

Definition lift {A} (r : result A) : io A :=
  match r with
  | Ok a => ret a
  | Err e => raise e
  end.

Declare Scope io_scope.
Delimit Scope io_scope with io.
Notation "x <- m ;; k" := (bind m (fun x => k))
  (at level 61, m at next level, right associativity) : io_scope.
Notation "m ;; k" := (bind m (fun _ => k))
  (at level 61, right associativity) : io_scope.

(** [f.write(data)] *)
Definition write (data : bytes) : io unit := fun f =>
  (Returns tt,
   {| pending := pending f ++ data;
      sent := sent f;
      incoming := incoming f;
      peer_closed := peer_closed f;
      calls := calls f ++ [EvWrite data] |}).

(** [f.flush()] *)
Definition flush : io unit := fun f =>
  (Returns tt,
   {| pending := [];
      sent := sent f ++ pending f;
      incoming := incoming f;
      peer_closed := peer_closed f;
      calls := calls f ++ [EvFlush] |}).

(** The first line of the data, with its terminator, and what follows
    it. *)
Fixpoint first_line (data : bytes) : option (bytes * bytes) :=
  match data with
  | [] => None
  | b :: data' =>
      if b =? 10 then Some ([b], data')
      else match first_line data' with
           | Some (line, rest) => Some (b :: line, rest)
           | None => None
           end
  end.

(** [f.readline()]: the octets up to and with the next line feed; at the
    end of the stream, what is left of it (nothing, or a line without a
    terminator).  With neither a line feed nor the end of the stream to
    come the call does not return. *)
Definition readline : io bytes := fun f =>
  match first_line (incoming f) with
  | Some (line, rest) =>
      (Returns line,
       {| pending := pending f;
          sent := sent f;
          incoming := rest;
          peer_closed := peer_closed f;
          calls := calls f ++ [EvReadline line] |})
  | None =>
      if peer_closed f then
        (Returns (incoming f),
         {| pending := pending f;
            sent := sent f;
            incoming := [];
            peer_closed := peer_closed f;
            calls := calls f ++ [EvReadline (incoming f)] |})
      else (Blocks, f)
  end.

(** ** [send] *)

Local Open Scope io_scope.

Definition send (msg : pyvalue) : io pyvalue :=
  text <- lift (Json.dumps msg) ;;
  data <- lift (Utf8.encode text) ;;
  let payload := data ++ [10] in
  write payload ;;
  flush ;;
  line <- readline ;;
  match line with
  | [] => raise (RuntimeError "connection closed")
  | _ :: _ =>
      text <- lift (Utf8.decode line) ;;
      lift (Json.loads text)
  end.

Local Close Scope io_scope.

(** ** The vocabulary of the specification *)




Definition MalformedResponse (e : exn) : Prop :=
  e = UnicodeDecodeError \/ e = JSONDecodeError.

(** The separator of host and port, and the line terminator. *)
Definition colon : N := 58.
Definition newline : N := 10.

(** A numeric port: a non-empty run of the ASCII digits. *)
Definition numeric (text : str) : bool :=
  match text with
  | [] => false
  | _ :: _ => forallb Int.is_digit text
  end.

(** The number a run of ASCII digits denotes in base 10. *)
Definition decimal (text : str) : Z :=
  fold_left (fun acc c => (10 * acc + Int.digit_value c)%Z) text 0%Z.

(** An address without its optional transport tag. *)
Definition remainder (raw : str) : str :=
  if Str.startswith (lit "tcp:") raw then skipn 4 raw else raw.

(** The frame of a request: its JSON text in UTF-8 and one line feed. *)
Definition frame_of (msg : pyvalue) : result bytes :=
  match Json.dumps msg with
  | Ok text =>
      match Utf8.encode text with
      | Ok data => Ok (data ++ [newline])
      | Err e => Err e
      end
  | Err e => Err e
  end.

(** The octets of a response decoded as JSON. *)
Definition decoded (content : bytes) : result pyvalue :=
  match Utf8.decode content with
  | Ok text => Json.loads text
  | Err e => Err e
  end.

(** The outcome of a call whose response decodes as [r]. *)
Definition answer (r : result pyvalue) : outcome pyvalue :=
  match r with
  | Ok v => Returns v
  | Err e => Raises e
  end.

(** [d.get(key)] on a decoded object *)
Fixpoint lookup (key : str) (items : list (pyvalue * pyvalue))
  : option pyvalue :=
  match items with
  | [] => None
  | (PyStr k, v) :: items' =>
      if Str.eqb k key then Some v else lookup key items'
  | _ :: items' => lookup key items'
  end.

Definition field (key : str) (v : pyvalue) : option pyvalue :=
  match v with
  | PyDict items => lookup key items
  | _ => None
  end.

(** What [send] makes of the line it has read. *)
Definition reply (line : bytes) : outcome pyvalue :=
  match line with
  | [] => Raises (RuntimeError "connection closed")
  | _ :: _ => answer (decoded line)
  end.

(** The connection after a payload has been written and flushed. *)
Definition transmitted (payload : bytes) (f : sock_file) : sock_file :=
  {| pending := [];
     sent := sent f ++ pending f ++ payload;
     incoming := incoming f;
     peer_closed := peer_closed f;
     calls := calls f ++ [EvWrite payload; EvFlush] |}.

(** The connection after [line] has been read and [rest] is left. *)
Definition consumed (line rest : bytes) (f : sock_file) : sock_file :=
  {| pending := pending f;
     sent := sent f;
     incoming := rest;
     peer_closed := peer_closed f;
     calls := calls f ++ [EvReadline line] |}.

(** [line] is what one [readline] takes from the front of the stream
    of [f], and [rest] what it leaves: a line up to and with its first
    line feed, or all that is left of a stream that the peer has
    closed. *)
Definition one_line (f : sock_file) (line rest : bytes) : Prop :=
  incoming f = line ++ rest /\
  ((exists content, line = content ++ [newline] /\ ~ In newline content) \/
   (~ In newline line /\ rest = [] /\ peer_closed f = true)).

(** A text between double quotes. *)
Definition quoted (s : string) : str := [34] ++ lit s ++ [34].

(** The first two requests of the script. *)
Definition hello : pyvalue :=
  PyDict [(PyStr (lit "id"), PyInt 1);
          (PyStr (lit "type"), PyStr (lit "hello"))].

Definition snapshot : pyvalue :=
  PyDict [(PyStr (lit "id"), PyInt 2);
          (PyStr (lit "type"), PyStr (lit "snapshot"));
          (PyStr (lit "include_text"), PyBool true)].

(** A file object just made on a connection on which the peer sends
    [data] and then closes its side or not. *)
Definition connection (data : bytes) (closed : bool) : sock_file :=
  {| pending := [];
     sent := [];
     incoming := data;
     peer_closed := closed;
     calls := [] |}.

(** Two calls, one after the other, as the script makes them. *)
Definition send_twice (msg1 msg2 : pyvalue) : io (pyvalue * pyvalue) :=
  bind (send msg1) (fun r1 => bind (send msg2) (fun r2 => ret (r1, r2))).

(** ** Native values and the runs of the decoder *)

(** The digits of a decimal number, as code points. *)
Fixpoint uint_codes (d : Decimal.uint) : str :=
  match d with
  | Decimal.Nil => []
  | Decimal.D0 d => 48 :: uint_codes d
  | Decimal.D1 d => 49 :: uint_codes d
  | Decimal.D2 d => 50 :: uint_codes d
  | Decimal.D3 d => 51 :: uint_codes d
  | Decimal.D4 d => 52 :: uint_codes d
  | Decimal.D5 d => 53 :: uint_codes d
  | Decimal.D6 d => 54 :: uint_codes d
  | Decimal.D7 d => 55 :: uint_codes d
  | Decimal.D8 d => 56 :: uint_codes d
  | Decimal.D9 d => 57 :: uint_codes d
  end.




(** No key comes twice. *)
Fixpoint distinct (keys : list str) : bool :=
  match keys with
  | [] => true
  | k :: keys' => negb (existsb (Str.eqb k) keys') && distinct keys'
  end.


(** The texts of the items of a list. *)
Fixpoint dumps_all (l : list pyvalue) : option (list str) :=
  match l with
  | [] => Some []
  | x :: l' =>
      match Json.dumps_text x, dumps_all l' with
      | Some t, Some ts => Some (t :: ts)
      | _, _ => None
      end
  end.

(** The texts of the items of a [dict]. *)
Fixpoint dumps_items (l : list (pyvalue * pyvalue)) : option (list str) :=
  match l with
  | [] => Some []
  | (k, x) :: l' =>
      match Json.key_text k, Json.dumps_text x, dumps_items l' with
      | Some kt, Some t, Some ts =>
          Some ((Json.encode_str kt ++ lit ": " ++ t) :: ts)
      | _, _, _ => None
      end
  end.





(** The pairs of a [dict] whose keys are [str]. *)
Definition str_pairs (items : list (pyvalue * pyvalue))
  : list (str * pyvalue) :=
  flat_map (fun kv => match fst kv with
                      | PyStr k => [(k, snd kv)]
                      | _ => []
                      end) items.



(** A text of ASCII characters only. *)
Definition all_ascii (t : str) : bool := forallb (fun c => c <? 128) t.

(** ** The rest of the script: lenient ports, plain frames, [main] *)





(** A printable ASCII character. *)
Definition printable (c : N) : bool := (32 <=? c) && (c <=? 126).

(** A text of printable ASCII characters only. *)
Definition plain_text (t : str) : bool := forallb printable t.

(** No [float] among the values of the object. *)
Fixpoint float_free (v : pyvalue) : bool :=
  match v with
  | PyFloat _ => false
  | PyList items | PyTuple items => forallb float_free items
  | PyDict items => forallb (fun kv => float_free (snd kv)) items
  | _ => true
  end.

(** A run of the white space of JSON. *)
Definition json_blank (s : str) : bool := forallb Json.is_ws s.

























(** An item whose key is a [str] and whose value satisfies [ok]. *)
Definition str_item (ok : pyvalue -> bool) (kv : pyvalue * pyvalue) : bool :=
  match fst kv with
  | PyStr _ => ok (snd kv)
  | _ => false
  end.

(** The objects JSON describes: no [bytes] and no tuple, and every
    [dict] with keys that are distinct strings. *)
Fixpoint json_shaped (v : pyvalue) : bool :=
  match v with
  | PyBytes _ | PyTuple _ => false
  | PyList items => forallb json_shaped items
  | PyDict items =>
      forallb (fun kv => match fst kv with
                         | PyStr _ => json_shaped (snd kv)
                         | _ => false
                         end) items
      && distinct (map fst (str_pairs items))
  | _ => true
  end.

Definition pairs_shaped (pairs : list (str * pyvalue)) : bool :=
  forallb (fun kv => json_shaped (snd kv)) pairs.

Definition frame_shaped (fr : Json.frame) : bool :=
  match fr with
  | Json.InArray items => forallb json_shaped items
  | Json.InObject pairs _ => pairs_shaped pairs
  end.

Definition mode_shaped (m : Json.mode) : bool :=
  match m with
  | Json.Key pairs | Json.KeyStr pairs _ _ | Json.Colon pairs _
  | Json.ObjectItem pairs => pairs_shaped pairs
  | Json.ArrayItem items => forallb json_shaped items
  | Json.Done v => json_shaped v
  | _ => true
  end.

Definition config_shaped (cf : Json.config) : bool :=
  mode_shaped (fst cf) && forallb frame_shaped (snd cf).

(** The items of a [dict] under construction. *)
Definition dict_shaped (d : list (pyvalue * pyvalue)) : bool :=
  forallb (str_item json_shaped) d && distinct (map fst (str_pairs d)).

(** * Properties *)

(** ** Strings *)

Lemma startswith_app (p s : str) : Str.startswith p (p ++ s) = true.
Proof.
  induction p as [|a p IH]; simpl; [reflexivity|].
  now rewrite N.eqb_refl, IH.
Qed.

Lemma contains_colon (s : str) :
  Str.contains [colon] s = existsb (N.eqb colon) s.
Proof.
  induction s as [|c s IH]; [reflexivity|].
  cbn [Str.contains existsb Str.startswith]. rewrite IH.
  now rewrite andb_true_r.
Qed.


Lemma rfind_absent (s : str) :
  ~ In colon s -> Str.rfind [colon] s = None.
Proof.
  induction s as [|c s IH]; intros H; [reflexivity|].
  cbn [Str.rfind Str.startswith]. rewrite IH by (intros K; apply H; now right).
  destruct (N.eqb_spec colon c) as [E|Hne]; [|reflexivity].
  exfalso. apply H. now left.
Qed.

Lemma rfind_last (host port : str) :
  ~ In colon port ->
  Str.rfind [colon] (host ++ colon :: port) = Some (List.length host).
Proof.
  intros H. induction host as [|c host IH].
  - cbn [app Str.rfind Str.startswith List.length].
    now rewrite rfind_absent, N.eqb_refl.
  - cbn [app Str.rfind List.length]. now rewrite IH.
Qed.

Lemma rsplit1_last (host port : str) :
  ~ In colon port ->
  Str.rsplit1 [colon] (host ++ colon :: port) = [host; port].
Proof.
  intros H. unfold Str.rsplit1. rewrite rfind_last by assumption.
  cbn [List.length]. rewrite Nat.add_1_r.
  induction host as [|c host IH]; [reflexivity|].
  cbn [List.length app firstn skipn].
  injection IH as H1 H2. now rewrite H1, H2.
Qed.

(** A text with a colon splits at its last colon. *)
Lemma split_last_colon (s : str) :
  existsb (N.eqb colon) s = true ->
  exists host port, s = host ++ colon :: port /\ ~ In colon port.
Proof.
  induction s as [|c s IH]; [discriminate|].
  cbn [existsb]. intros H.
  destruct (existsb (N.eqb colon) s) eqn:E.
  - destruct (IH eq_refl) as (host & port & -> & Hp).
    exists (c :: host), port. split; [reflexivity|assumption].
  - rewrite orb_false_r in H. apply N.eqb_eq in H. subst c.
    exists [], s. split; [reflexivity|].
    intros K. assert (existsb (N.eqb colon) s = true) as K'.
    { apply existsb_exists. exists colon. split; [assumption|apply N.eqb_refl]. }
    congruence.
Qed.

(** ** [int] on a run of digits *)

Lemma is_digit_bounds (c : N) : Int.is_digit c = true -> 48 <= c <= 57.
Proof.
  unfold Int.is_digit. intros H. apply andb_true_iff in H as [H1 H2].
  apply N.leb_le in H1, H2. lia.
Qed.

Lemma to_ascii_digit (c : N) : Int.is_digit c = true -> Int.to_ascii c = c.
Proof.
  intros H. apply is_digit_bounds in H. unfold Int.to_ascii.
  destruct (N.ltb_spec c 127); [reflexivity|lia].
Qed.

Lemma to_ascii_digits (s : str) :
  forallb Int.is_digit s = true -> map Int.to_ascii s = s.
Proof.
  induction s as [|c s IH]; [reflexivity|].
  cbn [forallb map]. intros H. apply andb_true_iff in H as [H1 H2].
  now rewrite to_ascii_digit, IH.
Qed.

Lemma digits_of_digits (s : str) (acc : Z) :
  forallb Int.is_digit s = true ->
  Int.digits acc s =
  Some (fold_left (fun a c => (10 * a + Int.digit_value c)%Z) s acc, []).
Proof.
  revert acc. induction s as [|c s IH]; intros acc H; [reflexivity|].
  cbn [forallb] in H. apply andb_true_iff in H as [H1 H2].
  cbn [Int.digits fold_left]. rewrite H1. now apply IH.
Qed.

Lemma digit_not_space (c : N) :
  Int.is_digit c = true -> Int.ascii_space c = false.
Proof.
  intros H. apply is_digit_bounds in H. unfold Int.ascii_space.
  destruct (N.leb_spec c 13); [lia|].
  destruct (N.eqb_spec c 32); [lia|].
  now rewrite andb_false_r.
Qed.

(** [int] reads a numeric text as the number it denotes. *)
Lemma int_of_numeric (text : str) :
  numeric text = true -> Int.parse text = Some (decimal text).
Proof.
  destruct text as [|c s]; [discriminate|].
  cbn [numeric]. intros H. unfold Int.parse.
  rewrite to_ascii_digits by assumption.
  cbn [forallb] in H. apply andb_true_iff in H as [H1 H2].
  cbn [Int.skip_spaces]. rewrite digit_not_space by assumption.
  pose proof (is_digit_bounds c H1) as Hc.
  destruct (N.eqb_spec c 43); [lia|].
  destruct (N.eqb_spec c 45); [lia|].
  unfold Int.unsigned. rewrite H1.
  rewrite digits_of_digits by assumption.
  cbn [Int.skip_spaces]. unfold decimal. cbn [fold_left].
  reflexivity.
Qed.

Lemma fold_digits_nonneg (s : str) (acc : Z) :
  (0 <= acc)%Z ->
  (0 <= fold_left (fun a c => (10 * a + Int.digit_value c)%Z) s acc)%Z.
Proof.
  revert acc. induction s as [|c s IH]; intros acc H; [assumption|].
  cbn [fold_left]. apply IH. unfold Int.digit_value. lia.
Qed.

Lemma decimal_nonneg (text : str) : (0 <= decimal text)%Z.
Proof. apply fold_digits_nonneg. lia. Qed.

(** ** [parse_addr] *)



(** [parse_addr] in terms of the address without its tag. *)
Lemma parse_addr_remainder (raw : str) :
  parse_addr raw =
  if Str.startswith (lit "unix:") (remainder raw) then
    Err (ValueError "unix sockets are not supported in this demo")
  else if negb (existsb (N.eqb colon) (remainder raw)) then
    Err (ValueError "expected host:port")
  else
    match Str.rsplit1 [colon] (remainder raw) with
    | [host; port] =>
        match Int.parse port with
        | Some n => Ok (host, n)
        | None => Err (InvalidLiteral port)
        end
    | _ => Err (ValueError "not enough values to unpack")
    end.
Proof.
  unfold parse_addr, remainder, Str.slice_from.
  change (lit ":") with [colon]. now rewrite contains_colon.
Qed.





Lemma absent_check (c : N) (s : str) :
  forallb (fun x => negb (x =? c)) s = true -> ~ In c s.
Proof.
  intros H K. rewrite forallb_forall in H. specialize (H c K).
  now rewrite N.eqb_refl in H.
Qed.






(** C6 (as amended): the port of an address that [parse_addr] returns
    is the integer that [int] reads, in base 10, from the text after the
    last colon; no range is imposed on it.  It is the number the text
    denotes, hence not negative, when the text is numeric. *)
Theorem parse_addr_port (raw host : str) (port : Z) :
  parse_addr raw = Ok (host, port) ->
  exists text,
    remainder raw = host ++ colon :: text /\
    ~ In colon text /\
    Int.parse text = Some port /\
    (numeric text = true -> port = decimal text /\ (0 <= port)%Z).
Proof.
  intros H. rewrite parse_addr_remainder in H.
  destruct (Str.startswith (lit "unix:") (remainder raw)) eqn:Hu;
    [discriminate|].
  destruct (existsb (N.eqb colon) (remainder raw)) eqn:Hc;
    [|discriminate].
  cbn [negb] in H.
  destruct (split_last_colon _ Hc) as (host' & text & Hr & Hp).
  rewrite Hr, rsplit1_last in H by assumption.
  destruct (Int.parse text) as [n|] eqn:Hi; [|discriminate].
  injection H as <- <-. exists text. repeat split; try assumption.
  - rewrite int_of_numeric in Hi by assumption. congruence.
  - rewrite int_of_numeric in Hi by assumption.
    injection Hi as <-. apply decimal_nonneg.
Qed.

Lemma parse_addr_port_witness :
  exists text,
    remainder (lit "tcp:127.0.0.1:7777") = lit "127.0.0.1" ++ colon :: text /\
    ~ In colon text /\
    Int.parse text = Some 7777%Z /\
    (numeric text = true -> 7777%Z = decimal text /\ (0 <= 7777)%Z).
Proof.
  apply (parse_addr_port (lit "tcp:127.0.0.1:7777")). reflexivity.
Defined.

(** C6 as stated fails: a negative port and a port above 65535 are
    returned as they are read. *)
Lemma parse_addr_port_out_of_range :
  parse_addr (lit "host:-1") = Ok (lit "host", (-1)%Z) /\
  parse_addr (lit "host:70000") = Ok (lit "host", 70000%Z).
Proof. split; reflexivity. Qed.

(** ** Lines *)

Lemma first_line_terminated (content rest : bytes) :
  ~ In newline content ->
  first_line (content ++ newline :: rest) = Some (content ++ [newline], rest).
Proof.
  intros H. induction content as [|b content IH]; [reflexivity|].
  cbn [app first_line].
  destruct (N.eqb_spec b 10) as [E|_].
  - exfalso. apply H. left. exact E.
  - rewrite IH; [reflexivity|]. intros K. apply H. now right.
Qed.

Lemma first_line_unterminated (data : bytes) :
  ~ In newline data -> first_line data = None.
Proof.
  intros H. induction data as [|b data IH]; [reflexivity|].
  cbn [first_line].
  destruct (N.eqb_spec b 10) as [E|_].
  - exfalso. apply H. left. exact E.
  - rewrite IH; [reflexivity|]. intros K. apply H. now right.
Qed.

(** A line that [first_line] finds is a text without line feed followed
    by one line feed, and the data is the line and the rest. *)
Lemma first_line_inv (data line rest : bytes) :
  first_line data = Some (line, rest) ->
  exists content,
    line = content ++ [newline] /\ ~ In newline content /\
    data = content ++ newline :: rest.
Proof.
  revert line. induction data as [|b data IH]; intros line; [discriminate|].
  cbn [first_line]. destruct (N.eqb_spec b 10) as [E|Hne].
  - intros [= <- <-]. exists []. subst b. repeat split. intros [].
  - destruct (first_line data) as [[l r]|]; [|discriminate].
    intros [= <- <-]. destruct (IH l eq_refl) as (content & -> & Hc & ->).
    exists (b :: content). repeat split.
    intros [K|K]; [now apply Hne|now apply Hc].
Qed.

(** ** The terminator of a line is white space for the decoders *)

Lemma utf8_bounds (st st' : str * Utf8.dstate) (b : N) :
  Utf8.dstep st b = Some st' ->
  match snd st' with
  | Utf8.Start => True
  | Utf8.Inside _ _ lo _ => 0x80 <= lo
  end.
Proof.
  destruct st as [out d]. unfold Utf8.dstep.
  destruct d as [|more cp lo hi].
  - repeat match goal with
           | |- context [if ?c then _ else _] => destruct c
           end; intros [= <-]; cbn; lia.
  - destruct ((lo <=? b) && (b <=? hi)); [|discriminate].
    destruct more; intros [= <-]; cbn; [exact I|lia].
Qed.

Lemma utf8_reached (data : bytes) (st : str * Utf8.dstate) :
  fold_left Utf8.feed data (Some ([], Utf8.Start)) = Some st ->
  match snd st with
  | Utf8.Start => True
  | Utf8.Inside _ _ lo _ => 0x80 <= lo
  end.
Proof.
  destruct data as [|b data] using rev_ind.
  - intros [= <-]. exact I.
  - rewrite fold_left_app. cbn [fold_left].
    destruct (fold_left Utf8.feed data (Some ([], Utf8.Start))) as [st0|];
      [|discriminate].
    cbn [Utf8.feed]. apply utf8_bounds.
Qed.

Lemma utf8_decode_newline (data : bytes) :
  Utf8.decode_chars (data ++ [newline])
  = option_map (fun text => text ++ [newline]) (Utf8.decode_chars data).
Proof.
  unfold Utf8.decode_chars. rewrite fold_left_app. cbn [fold_left].
  destruct (fold_left Utf8.feed data (Some ([], Utf8.Start)))
    as [[out d]|] eqn:E; [|reflexivity].
  apply utf8_reached in E. cbn [snd] in E.
  destruct d as [|more cp lo hi].
  - reflexivity.
  - cbn [Utf8.feed Utf8.dstep Utf8.finish option_map].
    destruct (N.leb_spec lo newline) as [K|_]; [unfold newline in K; lia|].
    reflexivity.
Qed.

Lemma literal_no_newline (l : Json.literal) (seen : nat) :
  nth_error (Json.literal_text l) seen <> Some newline.
Proof.
  destruct l;
    do 9 (destruct seen as [|seen]; [cbn; discriminate|]);
    destruct seen; cbn; discriminate.
Qed.

Lemma string_no_newline (out : str) (st : Json.sstate) :
  Json.sstep out st newline = None.
Proof. destruct st; reflexivity. Qed.

Lemma number_newline (st : Json.nstate) (token : str)
      (stack : list Json.frame) :
  Json.finish (Json.step (Json.Num st token, stack) newline)
  = Json.finish (Some (Json.Num st token, stack)).
Proof.
  cbn [Json.step].
  destruct (Json.nstep st newline) eqn:H.
  - destruct st; discriminate.
  - destruct st; discriminate.
  - destruct (Json.number_value st token) as [v|] eqn:E;
      destruct stack as [|[items|pairs key] stack];
      cbn [Json.finish Json.deliver Json.after]; rewrite ?E; reflexivity.
  - assert (Json.number_value st token = None) as E
        by (destruct st; try discriminate; reflexivity).
    destruct stack; cbn [Json.finish]; rewrite ?E; reflexivity.
Qed.

Lemma json_step_newline (cf : Json.config) :
  Json.finish (Json.step cf newline) = Json.finish (Some cf).
Proof.
  destruct cf as [m stack]. destruct m; cbn [Json.step].
  - reflexivity.
  - reflexivity.
  - reflexivity.
  - reflexivity.
  - now rewrite string_no_newline.
  - reflexivity.
  - now rewrite string_no_newline.
  - apply number_newline.
  - destruct (nth_error (Json.literal_text l) seen) as [x|] eqn:E;
      [|reflexivity].
    destruct (N.eqb_spec newline x) as [<-|_]; [|reflexivity].
    now apply literal_no_newline in E.
  - reflexivity.
  - reflexivity.
  - reflexivity.
Qed.

Lemma json_loads_newline (text : str) :
  Json.loads_text (text ++ [newline]) = Json.loads_text text.
Proof.
  unfold Json.loads_text. rewrite fold_left_app. cbn [fold_left].
  destruct (fold_left Json.feed text (Some (Json.Value, []))) as [cf|];
    [|reflexivity].
  apply json_step_newline.
Qed.

(** A line decodes as its content does. *)
Lemma decoded_line (content : bytes) :
  decoded (content ++ [newline]) = decoded content.
Proof.
  unfold decoded, Utf8.decode, Json.loads.
  rewrite utf8_decode_newline.
  destruct (Utf8.decode_chars content) as [text|]; [|reflexivity].
  cbn [option_map]. now rewrite json_loads_newline.
Qed.

(** ** [readline] *)

Lemma readline_line (f : sock_file) (content rest : bytes) :
  incoming f = content ++ newline :: rest ->
  ~ In newline content ->
  readline f
  = (Returns (content ++ [newline]), consumed (content ++ [newline]) rest f).
Proof.
  intros Hi Hc. unfold readline.
  rewrite Hi, first_line_terminated by assumption.
  reflexivity.
Qed.

Lemma readline_eof (f : sock_file) :
  ~ In newline (incoming f) ->
  peer_closed f = true ->
  readline f = (Returns (incoming f), consumed (incoming f) [] f).
Proof.
  intros Hi Hc. unfold readline, consumed.
  rewrite first_line_unterminated, Hc by assumption.
  reflexivity.
Qed.

Lemma readline_blocks (f : sock_file) :
  ~ In newline (incoming f) ->
  peer_closed f = false ->
  readline f = (Blocks, f).
Proof.
  intros Hi Hc. unfold readline, consumed.
  rewrite first_line_unterminated, Hc by assumption.
  reflexivity.
Qed.

(** [readline] returns no octet only at the end of an exhausted
    stream. *)
Lemma readline_empty (f f' : sock_file) :
  readline f = (Returns [], f') <->
  incoming f = [] /\ peer_closed f = true /\ f' = consumed [] [] f.
Proof.
  unfold readline. split.
  - destruct (first_line (incoming f)) as [[line rest]|] eqn:E.
    + apply first_line_inv in E as (content & -> & _ & _).
      intros [= H _]. now destruct content.
    + destruct (peer_closed f) eqn:Hc; [|discriminate].
      intros [= H <-]. unfold consumed. rewrite H, Hc. auto.
  - intros (Hi & Hc & ->). unfold consumed. now rewrite Hi, Hc.
Qed.

(** ** [send], step by step *)

Lemma send_not_serializable (msg : pyvalue) (e : exn) (f : sock_file) :
  frame_of msg = Err e -> send msg f = (Raises e, f).
Proof.
  unfold frame_of, send, bind.
  destruct (Json.dumps msg) as [text|e1]; cbn [lift ret raise].
  - destruct (Utf8.encode text) as [data|e2]; cbn [lift ret raise];
      [discriminate|congruence].
  - congruence.
Qed.

Lemma send_transmits (msg : pyvalue) (payload : bytes) (f : sock_file) :
  frame_of msg = Ok payload ->
  send msg f =
  match readline (transmitted payload f) with
  | (Returns line, f') => (reply line, f')
  | (Raises e, f') => (Raises e, f')
  | (Blocks, f') => (Blocks, f')
  end.
Proof.
  unfold frame_of, send, bind.
  destruct (Json.dumps msg) as [text|e1]; cbn [lift ret raise];
    [|discriminate].
  destruct (Utf8.encode text) as [data|e2]; cbn [lift ret raise];
    [|discriminate].
  intros [= <-]. unfold write, flush.
  cbn [pending sent incoming peer_closed calls].
  rewrite <- (app_assoc (calls f)). cbn [app].
  unfold transmitted, newline.
  match goal with
  | |- context [readline ?x] => destruct (readline x) as [[line|e|] f']
  end; [|reflexivity|reflexivity].
  destruct line as [|b line]; [reflexivity|].
  unfold reply, answer, decoded, raise.
  destruct (Utf8.decode (b :: line)) as [text'|e']; cbn [lift ret raise];
    [|reflexivity].
  destruct (Json.loads text'); reflexivity.
Qed.

Lemma send_line (msg : pyvalue) (payload : bytes) (f : sock_file)
      (content rest : bytes) :
  frame_of msg = Ok payload ->
  incoming f = content ++ newline :: rest ->
  ~ In newline content ->
  send msg f
  = (answer (decoded content),
     consumed (content ++ [newline]) rest (transmitted payload f)).
Proof.
  intros Hf Hi Hc. rewrite (send_transmits msg payload f Hf).
  rewrite (readline_line _ content rest) by assumption.
  rewrite <- decoded_line.
  now destruct content.
Qed.

Lemma send_eof (msg : pyvalue) (payload : bytes) (f : sock_file) :
  frame_of msg = Ok payload ->
  ~ In newline (incoming f) ->
  peer_closed f = true ->
  send msg f
  = (reply (incoming f),
     consumed (incoming f) [] (transmitted payload f)).
Proof.
  intros Hf Hi Hc. rewrite (send_transmits msg payload f Hf).
  now rewrite readline_eof.
Qed.

Lemma send_blocks (msg : pyvalue) (payload : bytes) (f : sock_file) :
  frame_of msg = Ok payload ->
  ~ In newline (incoming f) ->
  peer_closed f = false ->
  send msg f = (Blocks, transmitted payload f).
Proof.
  intros Hf Hi Hc. rewrite (send_transmits msg payload f Hf).
  now rewrite readline_blocks.
Qed.

Lemma decoded_error (data : bytes) (e : exn) :
  decoded data = Err e -> MalformedResponse e.
Proof.
  unfold decoded, Utf8.decode, Json.loads, MalformedResponse.
  destruct (Utf8.decode_chars data) as [text|]; [|intros [= <-]; now left].
  destruct (Json.loads_text text); [discriminate|intros [= <-]; now right].
Qed.

Lemma readline_never_raises (f f' : sock_file) (e : exn) :
  readline f <> (Raises e, f').
Proof.
  unfold readline.
  destruct (first_line (incoming f)) as [[line rest]|]; [discriminate|].
  destruct (peer_closed f); discriminate.
Qed.

Lemma answer_not_closed (data : bytes) :
  answer (decoded data) <> Raises (RuntimeError "connection closed").
Proof.
  destruct (decoded data) as [v|e] eqn:E; cbn [answer]; [discriminate|].
  apply decoded_error in E. destruct E as [-> | ->]; discriminate.
Qed.

(** ** What [json.dumps] writes, [json.loads] reads *)

Lemma lit_uint (d : Decimal.uint) :
  lit (NilEmpty.string_of_uint d) = uint_codes d.
Proof.
  unfold lit. induction d; cbn [NilEmpty.string_of_uint list_ascii_of_string map uint_codes];
    try rewrite IHd; reflexivity.
Qed.









Lemma int_repr_pos (p : positive) :
  Json.int_repr (Z.pos p) = uint_codes (Pos.to_uint p).
Proof. unfold Json.int_repr. cbn. apply lit_uint. Qed.

Lemma int_repr_neg (p : positive) :
  Json.int_repr (Z.neg p) = 45 :: uint_codes (Pos.to_uint p).
Proof.
  unfold Json.int_repr. cbn [Z.to_int NilEmpty.string_of_int].
  unfold lit. cbn [list_ascii_of_string map]. f_equal. apply lit_uint.
Qed.










Lemma mod16_lt (x : N) : x mod 16 < 16.
Proof. apply N.mod_lt. discriminate. Qed.












Lemma pyvalue_nested_ind (P : pyvalue -> Prop) :
  P PyNone ->
  (forall b, P (PyBool b)) ->
  (forall n, P (PyInt n)) ->
  (forall t, P (PyFloat t)) ->
  (forall s, P (PyStr s)) ->
  (forall b, P (PyBytes b)) ->
  (forall items, Forall P items -> P (PyList items)) ->
  (forall items, Forall P items -> P (PyTuple items)) ->
  (forall items, Forall (fun kv => P (snd kv)) items -> P (PyDict items)) ->
  forall v, P v.
Proof.
  intros HN HB HI HF HS HY HL HT HD.
  fix IH 1. intros [| | | | | |items|items|items].
  - exact HN.
  - apply HB.
  - apply HI.
  - apply HF.
  - apply HS.
  - apply HY.
  - apply HL. induction items as [|x items IHi]; constructor; [apply IH|exact IHi].
  - apply HT. induction items as [|x items IHi]; constructor; [apply IH|exact IHi].
  - apply HD. induction items as [|[k x] items IHi]; constructor;
      [apply IH|exact IHi].
Qed.

Lemma dumps_list (items : list pyvalue) :
  Json.dumps_text (PyList items) =
  match dumps_all items with
  | Some ts => Some ([91] ++ Json.join (lit ", ") ts ++ [93])
  | None => None
  end.
Proof. reflexivity. Qed.

Lemma dumps_dict (items : list (pyvalue * pyvalue)) :
  Json.dumps_text (PyDict items) =
  match dumps_items items with
  | Some ts => Some ([123] ++ Json.join (lit ", ") ts ++ [125])
  | None => None
  end.
Proof. reflexivity. Qed.










Lemma join_cons (sep p q : str) (l : list str) :
  Json.join sep (p :: q :: l) = p ++ sep ++ Json.join sep (q :: l).
Proof. reflexivity. Qed.




Lemma str_eqb_eq (s t : str) : Str.eqb s t = true <-> s = t.
Proof.
  revert t. induction s as [|a s IH]; intros [|b t]; cbn [Str.eqb];
    try (split; [discriminate|congruence]); [tauto|].
  rewrite andb_true_iff, N.eqb_eq, IH. split; [intros [-> ->]|intros [= -> ->]]; auto.
Qed.




















Lemma utf8_encode_ascii (t : str) :
  all_ascii t = true -> Utf8.encode_chars t = Some t.
Proof.
  induction t as [|c t IH]; [reflexivity|].
  cbn [all_ascii forallb]. intros H. apply andb_true_iff in H as [H1 H2].
  cbn [Utf8.encode_chars]. unfold Utf8.encode_char.
  apply N.ltb_lt in H1.
  destruct (N.ltb_spec c 128); [|lia].
  now rewrite (IH H2).
Qed.




(** A tuple is written as an array and read back as a list: outside
    the native values the frame need not decode to the request. *)
Example tuple_read_back_as_list :
  Json.dumps (PyTuple [PyInt 1; PyInt 2]) = Ok (lit "[1, 2]") /\
  Json.loads (lit "[1, 2]") = Ok (PyList [PyInt 1; PyInt 2]).
Proof. split; reflexivity. Qed.

(** ** The call *)






(** C5: a call writes its whole frame, in one write, and flushes it
    before it reads; it then reads one line and no more, leaving the
    rest of the stream where it is; so, of two calls one after the
    other, the second writes its frame only after the first has read its
    line. *)
Theorem send_in_order (msg1 msg2 : pyvalue) (p1 p2 : bytes) (f : sock_file) :
  frame_of msg1 = Ok p1 ->
  frame_of msg2 = Ok p2 ->
  ((send msg1 f = (Blocks, transmitted p1 f) /\
    first_line (incoming f) = None /\ peer_closed f = false) \/
   (exists line rest,
       one_line f line rest /\
       send msg1 f = (reply line, consumed line rest (transmitted p1 f)))) /\
  (forall c1 c2 rest r1,
      incoming f = c1 ++ newline :: c2 ++ newline :: rest ->
      ~ In newline c1 ->
      ~ In newline c2 ->
      decoded c1 = Ok r1 ->
      exists f',
        send_twice msg1 msg2 f
        = (match decoded c2 with
           | Ok r2 => Returns (r1, r2)
           | Err e => Raises e
           end, f') /\
        calls f' = calls f ++ [EvWrite p1; EvFlush; EvReadline (c1 ++ [newline]);
                               EvWrite p2; EvFlush; EvReadline (c2 ++ [newline])] /\
        sent f' = sent f ++ pending f ++ p1 ++ p2 /\
        pending f' = [] /\
        incoming f' = rest).
Proof.
  intros Hf1 Hf2. split.
  - rewrite (send_transmits msg1 p1 f Hf1). unfold readline.
    cbn [transmitted incoming peer_closed].
    destruct (first_line (incoming f)) as [[line rest]|] eqn:E.
    + right. exists line, rest. split; [|reflexivity].
      apply first_line_inv in E as (content & -> & Hc & Hi).
      split.
      * rewrite Hi, <- app_assoc. reflexivity.
      * left. now exists content.
    + destruct (peer_closed f) eqn:Hc.
      * right. exists (incoming f), []. split.
        -- split; [now rewrite app_nil_r|].
           right. repeat split; try assumption.
           intros K. clear -E K. induction (incoming f) as [|b d IH];
             [destruct K|].
           cbn [first_line] in E. destruct (N.eqb_spec b 10) as [|Hne];
             [discriminate|].
           destruct (first_line d) as [[? ?]|]; [discriminate|].
           destruct K as [K|K]; [now apply Hne|now apply IH].
        -- unfold consumed, transmitted.
           cbn [pending sent incoming peer_closed calls].
           now rewrite Hc.
      * left. repeat split.
  - intros c1 c2 rest r1 Hi Hc1 Hc2 Hr1.
    unfold send_twice, bind.
    rewrite (send_line msg1 p1 f c1 (c2 ++ newline :: rest) Hf1 Hi Hc1), Hr1.
    cbn [answer].
    rewrite (send_line msg2 p2
               (consumed (c1 ++ [newline]) (c2 ++ newline :: rest)
                  (transmitted p1 f))
               c2 rest Hf2 eq_refl Hc2).
    eexists. split.
    + destruct (decoded c2); reflexivity.
    + cbn [consumed transmitted pending sent incoming peer_closed calls app].
      repeat split.
      * now rewrite <- !app_assoc.
      * now rewrite <- !app_assoc.
Qed.

Lemma send_in_order_witness :
  let line1 := lit "{" ++ quoted "ok" ++ lit ": true}" ++ [newline] in
  let line2 := lit "[1, 2]" ++ [newline] in
  exists f',
    send_twice hello snapshot (connection (line1 ++ line2) false)
    = (Returns (PyDict [(PyStr (lit "ok"), PyBool true)],
                PyList [PyInt 1; PyInt 2]), f') /\
    incoming f' = [] /\
    pending f' = [].
Proof.
  intros line1 line2.
  destruct (send_in_order hello snapshot _ _
              (connection (line1 ++ line2) false) eq_refl eq_refl)
    as [_ H].
  destruct (H (lit "{" ++ quoted "ok" ++ lit ": true}") (lit "[1, 2]") []
              (PyDict [(PyStr (lit "ok"), PyBool true)]) eq_refl)
    as (f' & H1 & _ & _ & H4 & H5).
  - apply absent_check. reflexivity.
  - apply absent_check. reflexivity.
  - reflexivity.
  - exists f'. repeat split; assumption.
Defined.



(** C8: the value a call returns is the value the response line decodes
    to, whatever the request was: the outcome of a call is the same for
    any two requests, so the [id] of the response is not compared with
    the [id] of the request. *)
Theorem send_ignores_id (msg msg' : pyvalue) (payload payload' : bytes)
        (f : sock_file) (content rest : bytes) (response : pyvalue) :
  frame_of msg = Ok payload ->
  frame_of msg' = Ok payload' ->
  incoming f = content ++ newline :: rest ->
  ~ In newline content ->
  decoded content = Ok response ->
  fst (send msg f) = Returns response /\
  fst (send msg' f) = fst (send msg f).
Proof.
  intros Hf Hf' Hi Hc Hr.
  rewrite (send_line msg payload f content rest Hf Hi Hc).
  rewrite (send_line msg' payload' f content rest Hf' Hi Hc).
  cbn [fst]. now rewrite Hr.
Qed.

Lemma send_ignores_id_witness :
  let content := lit "{" ++ quoted "id" ++ lit ": 7, " ++ quoted "ok"
                 ++ lit ": true}" in
  let response := PyDict [(PyStr (lit "id"), PyInt 7);
                          (PyStr (lit "ok"), PyBool true)] in
  field (lit "id") hello = Some (PyInt 1) /\
  field (lit "id") response = Some (PyInt 7) /\
  fst (send hello (connection (content ++ [newline]) false))
  = Returns response.
Proof.
  intros content response. split; [reflexivity|]. split; [reflexivity|].
  apply (send_ignores_id hello snapshot _ _
           (connection (content ++ [newline]) false) content [] response
           eq_refl eq_refl eq_refl).
  - apply absent_check. reflexivity.
  - reflexivity.
Defined.

(** C9: when the request has no JSON form, the call raises while it
    serializes, before it writes or reads: the connection is as it was,
    and a later call goes as if this one had not been made. *)
Theorem send_serialization_atomic (msg : pyvalue) (e : exn) (f : sock_file) :
  Json.dumps msg = Err e ->
  e = TypeError /\
  send msg f = (Raises e, f) /\
  (forall msg', send msg' (snd (send msg f)) = send msg' f).
Proof.
  intros H.
  assert (frame_of msg = Err e) as Hf by (unfold frame_of; now rewrite H).
  rewrite (send_not_serializable msg e f Hf). repeat split.
  unfold Json.dumps in H. destruct (Json.dumps_text msg); congruence.
Qed.

Lemma send_serialization_atomic_witness :
  send (PyDict [(PyStr (lit "id"), PyInt 1);
                (PyStr (lit "blob"), PyBytes [0; 255])])
       (connection [] false)
  = (Raises TypeError, connection [] false).
Proof.
  apply (send_serialization_atomic
           (PyDict [(PyStr (lit "id"), PyInt 1);
                    (PyStr (lit "blob"), PyBytes [0; 255])])
           TypeError (connection [] false)).
  reflexivity.
Defined.

(** C10: a call fails as a closed connection exactly when [readline]
    returns no octet; a line of just the line feed, and any line that is
    not empty, goes to the JSON decoder, so that a bare line feed fails
    as JSON that does not decode. *)
Theorem send_closed_iff_empty_read (msg : pyvalue) (payload : bytes)
        (f : sock_file) :
  frame_of msg = Ok payload ->
  (fst (send msg f) = Raises (RuntimeError "connection closed") <->
   fst (readline (transmitted payload f)) = Returns []) /\
  (fst (readline (transmitted payload f)) = Returns [] <->
   incoming f = [] /\ peer_closed f = true) /\
  (forall rest, incoming f = newline :: rest ->
                fst (send msg f) = Raises JSONDecodeError) /\
  (forall line, fst (readline (transmitted payload f)) = Returns line ->
                line <> [] ->
                fst (send msg f) = answer (decoded line)).
Proof.
  intros Hf. rewrite (send_transmits msg payload f Hf).
  repeat split.
  - destruct (readline (transmitted payload f)) as [[line|e|] f'] eqn:E;
      cbn [fst]; try discriminate.
    + destruct line as [|b line]; [reflexivity|].
      cbn [reply]. intros K. now apply answer_not_closed in K.
    + now apply readline_never_raises in E.
  - destruct (readline (transmitted payload f)) as [[line|e|] f'];
      cbn [fst]; try discriminate.
    now intros [= ->].
  - destruct (readline (transmitted payload f)) as [o f'] eqn:E.
    cbn [fst] in H. subst o. now apply readline_empty in E.
  - destruct (readline (transmitted payload f)) as [o f'] eqn:E.
    cbn [fst] in H. subst o. now apply readline_empty in E.
  - intros [Hi Hc].
    assert (readline (transmitted payload f)
            = (Returns [], consumed [] [] (transmitted payload f))) as ->
        by (apply readline_empty; repeat split; assumption).
    reflexivity.
  - intros rest Hi.
    rewrite (readline_line (transmitted payload f) [] rest Hi) by intros [].
    reflexivity.
  - intros line H Hne.
    destruct (readline (transmitted payload f)) as [o f'].
    cbn [fst] in H. subst o. cbn [fst].
    destruct line; [congruence|reflexivity].
Qed.

Lemma send_closed_iff_empty_read_witness :
  fst (send hello (connection [newline] false)) = Raises JSONDecodeError.
Proof.
  destruct (send_closed_iff_empty_read hello _ (connection [newline] false)
              eq_refl) as (_ & _ & H & _).
  apply (H []). reflexivity.
Defined.

(** * More of the script *)

(** ** More on [parse_addr] *)

















(** ** More on [send] *)

Lemma first_line_none (data : bytes) :
  first_line data = None -> ~ In newline data.
Proof.
  induction data as [|b data IH]; intros E K; [destruct K|].
  cbn [first_line] in E. destruct (N.eqb_spec b 10) as [|Hne]; [discriminate|].
  destruct (first_line data) as [[? ?]|]; [discriminate|].
  destruct K as [K|K]; [now apply Hne|now apply IH].
Qed.

Lemma first_line_some (data line rest : bytes) :
  first_line data = Some (line, rest) -> In newline data.
Proof.
  intros E. apply first_line_inv in E as (content & _ & _ & ->).
  apply in_or_app. right. now left.
Qed.

(** The three ways a call goes once the frame is made. *)
Lemma send_cases (msg : pyvalue) (payload : bytes) (f : sock_file) :
  frame_of msg = Ok payload ->
  (~ In newline (incoming f) /\ peer_closed f = false /\
   send msg f = (Blocks, transmitted payload f)) \/
  (exists line rest,
      one_line f line rest /\
      send msg f = (reply line, consumed line rest (transmitted payload f))).
Proof.
  intros Hf. destruct (first_line (incoming f)) as [[line rest]|] eqn:E.
  - right. apply first_line_inv in E as (content & -> & Hc & Hi).
    exists (content ++ [newline]), rest. split.
    + split; [now rewrite Hi, <- List.app_assoc|left; now exists content].
    + rewrite (send_line msg payload f content rest Hf Hi Hc).
      rewrite <- decoded_line. now destruct content.
  - apply first_line_none in E. destruct (peer_closed f) eqn:Hc.
    + right. exists (incoming f), []. split.
      * split; [now rewrite List.app_nil_r|right; now repeat split].
      * now apply (send_eof msg payload f Hf).
    + left. repeat split; try assumption.
      now apply (send_blocks msg payload f Hf).
Qed.





(** X4: a call only adds to what has been sent, only takes from the
    front of what the peer sends, only adds to the record of the calls,
    and leaves the peer's side as it is. *)
Theorem send_only_appends (msg : pyvalue) (f : sock_file) :
  exists written taken made,
    sent (snd (send msg f)) ++ pending (snd (send msg f))
    = sent f ++ pending f ++ written /\
    incoming f = taken ++ incoming (snd (send msg f)) /\
    calls (snd (send msg f)) = calls f ++ made /\
    peer_closed (snd (send msg f)) = peer_closed f.
Proof.
  destruct (frame_of msg) as [payload|e] eqn:Hf.
  - destruct (send_cases msg payload f Hf)
      as [(Hn & Hc & ->)|(line & rest & [Hi _] & ->)];
      cbn [snd transmitted consumed sent pending incoming calls peer_closed].
    + exists payload, [], [EvWrite payload; EvFlush].
      rewrite List.app_nil_r. repeat split.
    + exists payload, line, [EvWrite payload; EvFlush; EvReadline line].
      rewrite List.app_nil_r, <- List.app_assoc. repeat split. exact Hi.
  - rewrite (send_not_serializable msg e f Hf). cbn [snd].
    exists [], [], []. rewrite !List.app_nil_r. repeat split.
Qed.




Lemma plain_app (a b : str) : plain_text (a ++ b) = plain_text a && plain_text b.
Proof. apply forallb_app. Qed.

Lemma plain_uint (d : Decimal.uint) : plain_text (uint_codes d) = true.
Proof.
  unfold plain_text. induction d; cbn [uint_codes forallb];
    try rewrite IHd; reflexivity.
Qed.

Lemma plain_int_repr (n : Z) : plain_text (Json.int_repr n) = true.
Proof.
  destruct n as [|p|p].
  - reflexivity.
  - rewrite int_repr_pos. apply plain_uint.
  - rewrite int_repr_neg. unfold plain_text. cbn [forallb].
    apply plain_uint.
Qed.

Lemma hex_digit_printable (d : N) :
  d < 16 -> printable (Json.hex_digit d) = true.
Proof.
  intros H. unfold Json.hex_digit, printable.
  apply andb_true_iff. destruct (N.ltb_spec d 10); split; apply N.leb_le; lia.
Qed.

Lemma plain_u_escape (c : N) : plain_text (Json.u_escape c) = true.
Proof.
  unfold Json.u_escape, plain_text. cbn [forallb].
  now rewrite !hex_digit_printable by apply mod16_lt.
Qed.

Lemma plain_escape_char (c : N) : plain_text (Json.escape_char c) = true.
Proof.
  unfold Json.escape_char.
  repeat match goal with
         | |- context [if ?a =? ?b then _ else _] =>
             destruct (a =? b); [reflexivity|]
         end.
  destruct ((32 <=? c) && (c <=? 126)) eqn:Hp.
  - unfold plain_text, printable. cbn [forallb]. now rewrite Hp.
  - destruct (c <? 65536).
    + apply plain_u_escape.
    + now rewrite plain_app, !plain_u_escape.
Qed.

Lemma plain_escaped (s : str) :
  plain_text (flat_map Json.escape_char s) = true.
Proof.
  induction s as [|c s IH]; [reflexivity|].
  cbn [flat_map]. now rewrite plain_app, plain_escape_char, IH.
Qed.

Lemma plain_encode_str (s : str) : plain_text (Json.encode_str s) = true.
Proof.
  unfold Json.encode_str. rewrite !plain_app, plain_escaped. reflexivity.
Qed.

Lemma plain_join (ts : list str) :
  forallb plain_text ts = true ->
  plain_text (Json.join (lit ", ") ts) = true.
Proof.
  induction ts as [|t ts IH]; [reflexivity|].
  cbn [forallb]. intros H. apply andb_true_iff in H as [H1 H2].
  destruct ts as [|t' ts]; [exact H1|].
  rewrite join_cons, !plain_app, H1, IH by assumption. reflexivity.
Qed.

Lemma plain_dumps_all (items : list pyvalue) :
  Forall (fun v => forall t, float_free v = true ->
                             Json.dumps_text v = Some t ->
                             plain_text t = true) items ->
  forallb float_free items = true ->
  forall ts, dumps_all items = Some ts -> forallb plain_text ts = true.
Proof.
  induction 1 as [|x items Hx _ IH]; intros Hn ts E.
  - now injection E as <-.
  - cbn [forallb] in Hn. apply andb_true_iff in Hn as [Hnx Hn].
    cbn [dumps_all] in E.
    destruct (Json.dumps_text x) as [t|] eqn:Et; [|discriminate].
    destruct (dumps_all items) as [ts'|]; [|discriminate].
    injection E as <-. cbn [forallb].
    now rewrite (Hx t Hnx eq_refl), (IH Hn ts' eq_refl).
Qed.

Lemma plain_dumps_items (items : list (pyvalue * pyvalue)) :
  Forall (fun kv => forall t, float_free (snd kv) = true ->
                              Json.dumps_text (snd kv) = Some t ->
                              plain_text t = true) items ->
  forallb (fun kv => float_free (snd kv)) items = true ->
  forall es, dumps_items items = Some es -> forallb plain_text es = true.
Proof.
  induction 1 as [|[k x] items Hx _ IH]; intros Hn es E.
  - now injection E as <-.
  - cbn [forallb] in Hn. apply andb_true_iff in Hn as [Hnx Hn].
    cbn [fst snd] in Hnx, Hx. cbn [dumps_items] in E.
    destruct (Json.key_text k) as [kt|]; [|discriminate].
    destruct (Json.dumps_text x) as [t|] eqn:Et; [|discriminate].
    destruct (dumps_items items) as [es'|]; [|discriminate].
    assert (es = (Json.encode_str kt ++ lit ": " ++ t) :: es') as ->
        by congruence.
    cbn [forallb].
    rewrite !plain_app, plain_encode_str, (Hx t Hnx eq_refl).
    now rewrite (IH Hn es' eq_refl).
Qed.

Lemma dumps_tuple (items : list pyvalue) :
  Json.dumps_text (PyTuple items) =
  match dumps_all items with
  | Some ts => Some ([91] ++ Json.join (lit ", ") ts ++ [93])
  | None => None
  end.
Proof. reflexivity. Qed.

Lemma plain_dumps (v : pyvalue) (t : str) :
  float_free v = true ->
  Json.dumps_text v = Some t ->
  plain_text t = true.
Proof.
  revert t. induction v as [|b|n|t0|s|b|items IH|items IH|items IH]
    using pyvalue_nested_ind; intros t Hn Hd; try discriminate.
  - now injection Hd as <-.
  - destruct b; now injection Hd as <-.
  - injection Hd as <-. apply plain_int_repr.
  - injection Hd as <-. apply plain_encode_str.
  - rewrite dumps_list in Hd. cbn [float_free] in Hn.
    destruct (dumps_all items) as [ts|] eqn:E; [|discriminate].
    assert (t = [91] ++ Json.join (lit ", ") ts ++ [93]) as ->
        by congruence.
    rewrite !plain_app.
    rewrite plain_join by now apply (plain_dumps_all items).
    reflexivity.
  - rewrite dumps_tuple in Hd. cbn [float_free] in Hn.
    destruct (dumps_all items) as [ts|] eqn:E; [|discriminate].
    assert (t = [91] ++ Json.join (lit ", ") ts ++ [93]) as ->
        by congruence.
    rewrite !plain_app.
    rewrite plain_join by now apply (plain_dumps_all items).
    reflexivity.
  - rewrite dumps_dict in Hd. cbn [float_free] in Hn.
    destruct (dumps_items items) as [es|] eqn:E; [|discriminate].
    assert (t = [123] ++ Json.join (lit ", ") es ++ [125]) as ->
        by congruence.
    rewrite !plain_app.
    rewrite plain_join by now apply (plain_dumps_items items).
    reflexivity.
Qed.

Lemma plain_is_ascii (t : str) : plain_text t = true -> all_ascii t = true.
Proof.
  unfold plain_text, all_ascii. induction t as [|c t IH]; [reflexivity|].
  cbn [forallb]. intros H. apply andb_true_iff in H as [H1 H2].
  rewrite (IH H2), andb_true_r. unfold printable in H1.
  apply andb_true_iff in H1 as [_ H1]. apply N.leb_le in H1.
  apply N.ltb_lt. lia.
Qed.

Lemma plain_no_newline (t : str) : plain_text t = true -> ~ In newline t.
Proof.
  unfold plain_text. intros H K. rewrite forallb_forall in H.
  apply H in K. discriminate.
Qed.

(** X6: the frame of a request without floats is its JSON text as it
    is, in printable ASCII characters, and one line feed: whatever the
    strings of the request hold, the frame is one line and making it
    never fails in the encoding to UTF-8. *)
Theorem frame_is_one_plain_line (msg : pyvalue) (text : str) :
  float_free msg = true ->
  Json.dumps msg = Ok text ->
  plain_text text = true /\
  frame_of msg = Ok (text ++ [newline]) /\
  first_line (text ++ [newline]) = Some (text ++ [newline], []).
Proof.
  intros Hn Hd. pose proof Hd as Hd'. unfold Json.dumps in Hd'.
  destruct (Json.dumps_text msg) as [t|] eqn:E; [|discriminate].
  injection Hd' as ->.
  pose proof (plain_dumps msg text Hn E) as Hp.
  split; [exact Hp|]. split.
  - unfold frame_of, Utf8.encode. rewrite Hd.
    now rewrite utf8_encode_ascii by now apply plain_is_ascii.
  - apply first_line_terminated. now apply plain_no_newline.
Qed.

Lemma frame_is_one_plain_line_witness :
  frame_of (PyStr [97; 10; 98])
  = Ok ([34; 97; 92; 110; 98; 34] ++ [newline]).
Proof.
  apply (frame_is_one_plain_line (PyStr [97; 10; 98])
           [34; 97; 92; 110; 98; 34]); reflexivity.
Defined.

Lemma is_ws_cases (c : N) :
  Json.is_ws c = true -> c = 32 \/ c = 9 \/ c = 10 \/ c = 13.
Proof.
  unfold Json.is_ws. intros H.
  repeat (apply orb_true_iff in H as [H|H]); apply N.eqb_eq in H; auto.
Qed.

Lemma utf8_decode_ascii_last (data : bytes) (b : N) :
  b < 128 ->
  Utf8.decode_chars (data ++ [b])
  = option_map (fun text => text ++ [b]) (Utf8.decode_chars data).
Proof.
  intros Hb. unfold Utf8.decode_chars. rewrite fold_left_app. cbn [fold_left].
  destruct (fold_left Utf8.feed data (Some ([], Utf8.Start)))
    as [[out d]|] eqn:E; [|reflexivity].
  apply utf8_reached in E. cbn [snd] in E.
  destruct d as [|more cp lo hi].
  - cbn [Utf8.feed Utf8.dstep].
    destruct (N.ltb_spec b 128); [reflexivity|lia].
  - cbn [Utf8.feed Utf8.dstep Utf8.finish option_map].
    destruct (N.leb_spec lo b) as [K|_]; [lia|]. reflexivity.
Qed.

Lemma utf8_fold_out (data : bytes) (out : str) :
  fold_left Utf8.feed data (Some (out, Utf8.Start))
  = match fold_left Utf8.feed data (Some ([], Utf8.Start)) with
    | Some (o, d) => Some (o ++ out, d)
    | None => None
    end.
Proof.
  revert out. induction data as [|b data IH] using rev_ind; intros out;
    [reflexivity|].
  rewrite !fold_left_app. cbn [fold_left]. rewrite (IH out).
  destruct (fold_left Utf8.feed data (Some ([], Utf8.Start)))
    as [[o d]|]; [|reflexivity].
  cbn [Utf8.feed]. unfold Utf8.dstep. destruct d as [|more cp lo hi].
  - repeat match goal with
           | |- context [if ?c then _ else _] => destruct c
           end; reflexivity.
  - destruct ((lo <=? b) && (b <=? hi)); [|reflexivity].
    destruct more; reflexivity.
Qed.

Lemma utf8_decode_ascii_first (data : bytes) (b : N) :
  b < 128 ->
  Utf8.decode_chars (b :: data)
  = option_map (fun text => b :: text) (Utf8.decode_chars data).
Proof.
  intros Hb. unfold Utf8.decode_chars. cbn [fold_left Utf8.feed Utf8.dstep].
  destruct (N.ltb_spec b 128); [|lia].
  rewrite utf8_fold_out.
  destruct (fold_left Utf8.feed data (Some ([], Utf8.Start)))
    as [[o d]|]; [|reflexivity].
  destruct d; cbn [Utf8.finish option_map]; [|reflexivity].
  now rewrite rev_app_distr.
Qed.

Lemma literal_no_ws (l : Json.literal) (seen : nat) (c : N) :
  Json.is_ws c = true ->
  nth_error (Json.literal_text l) seen <> Some c.
Proof.
  intros H. apply is_ws_cases in H.
  destruct H as [->|[->|[->| ->]]]; destruct l;
    do 9 (destruct seen as [|seen]; [cbn; discriminate|]);
    destruct seen; cbn; discriminate.
Qed.

Lemma number_ws (st : Json.nstate) (token : str)
      (stack : list Json.frame) (c : N) :
  Json.is_ws c = true ->
  Json.finish (Json.step (Json.Num st token, stack) c)
  = Json.finish (Some (Json.Num st token, stack)).
Proof.
  intros Hw. cbn [Json.step].
  assert (Json.nstep st c = Json.NStop \/
          (Json.nstep st c = Json.NBad /\
           Json.number_value st token = None)) as [H|[H E]].
  { apply is_ws_cases in Hw. destruct Hw as [->|[->|[->| ->]]];
      destruct st; (now left) || (right; now split). }
  - rewrite H.
    destruct (Json.number_value st token) as [v|] eqn:E;
      destruct stack as [|[items|pairs key] stack];
      cbn [Json.finish Json.deliver Json.after]; rewrite ?Hw, ?E;
      reflexivity.
  - rewrite H. destruct stack; cbn [Json.finish]; rewrite ?E; reflexivity.
Qed.

Lemma string_ws (out : str) (st : Json.sstate) (c : N) (s : str) :
  Json.is_ws c = true -> Json.sstep out st c <> Some (Json.SClosed s).
Proof.
  intros H. apply is_ws_cases in H.
  destruct H as [->|[->|[->| ->]]]; destruct st; discriminate.
Qed.

Lemma json_step_ws (cf : Json.config) (c : N) :
  Json.is_ws c = true ->
  Json.finish (Json.step cf c) = Json.finish (Some cf).
Proof.
  intros Hw. destruct cf as [m stack]. destruct m; cbn [Json.step];
    rewrite ?Hw; try reflexivity.
  - destruct (Json.sstep out st c) as [[o s|s]|]; reflexivity.
  - destruct (Json.sstep out st c) as [[o s|s]|] eqn:E; try reflexivity.
    now apply string_ws in E.
  - now apply number_ws.
  - destruct (nth_error (Json.literal_text l) seen) as [x|] eqn:E;
      [|reflexivity].
    destruct (N.eqb_spec c x) as [<-|_]; [|reflexivity].
    now apply literal_no_ws in E.
  - cbn [Json.after]. now rewrite Hw.
  - cbn [Json.after]. now rewrite Hw.
  - cbn [Json.after]. now rewrite Hw.
Qed.

Lemma json_loads_ws_last (text : str) (c : N) :
  Json.is_ws c = true ->
  Json.loads_text (text ++ [c]) = Json.loads_text text.
Proof.
  intros Hw. unfold Json.loads_text. rewrite fold_left_app. cbn [fold_left].
  destruct (fold_left Json.feed text (Some (Json.Value, []))) as [cf|];
    [|reflexivity].
  now apply json_step_ws.
Qed.

Lemma json_loads_ws_first (text : str) (c : N) :
  Json.is_ws c = true ->
  Json.loads_text (c :: text) = Json.loads_text text.
Proof.
  intros Hw. unfold Json.loads_text. cbn [fold_left Json.feed Json.step].
  now rewrite Hw.
Qed.

Lemma ws_ascii (c : N) : Json.is_ws c = true -> c < 128.
Proof. intros H. apply is_ws_cases in H. lia. Qed.

Lemma decoded_ws_last (content : bytes) (c : N) :
  Json.is_ws c = true -> decoded (content ++ [c]) = decoded content.
Proof.
  intros Hw. unfold decoded, Utf8.decode, Json.loads.
  rewrite utf8_decode_ascii_last by now apply ws_ascii.
  destruct (Utf8.decode_chars content) as [text|]; [|reflexivity].
  cbn [option_map]. now rewrite json_loads_ws_last.
Qed.

Lemma decoded_ws_first (content : bytes) (c : N) :
  Json.is_ws c = true -> decoded (c :: content) = decoded content.
Proof.
  intros Hw. unfold decoded, Utf8.decode, Json.loads.
  rewrite utf8_decode_ascii_first by now apply ws_ascii.
  destruct (Utf8.decode_chars content) as [text|]; [|reflexivity].
  cbn [option_map]. now rewrite json_loads_ws_first.
Qed.

Lemma decoded_padded (before content after : bytes) :
  json_blank before = true ->
  json_blank after = true ->
  decoded (before ++ content ++ after) = decoded content.
Proof.
  unfold json_blank. intros Hb Ha.
  induction before as [|c before IH].
  - cbn [app]. clear Hb. induction after as [|c after IH] using rev_ind.
    + now rewrite List.app_nil_r.
    + rewrite forallb_app in Ha. apply andb_true_iff in Ha as [Ha Hc].
      cbn [forallb] in Hc. rewrite andb_true_r in Hc.
      rewrite List.app_assoc, decoded_ws_last by assumption. now apply IH.
  - cbn [forallb] in Hb. apply andb_true_iff in Hb as [Hc Hb].
    cbn [app]. rewrite decoded_ws_first by assumption. now apply IH.
Qed.

(** X7: white space around the response, such as the carriage return of
    a line that ends with CR LF, is ignored: the call gives what the
    response gives without it. *)
Theorem send_ignores_white_space (msg : pyvalue) (payload : bytes)
        (f : sock_file) (before content after rest : bytes) :
  frame_of msg = Ok payload ->
  incoming f = (before ++ content ++ after) ++ newline :: rest ->
  ~ In newline (before ++ content ++ after) ->
  json_blank before = true ->
  json_blank after = true ->
  fst (send msg f) = answer (decoded content).
Proof.
  intros Hf Hi Hn Hb Ha.
  rewrite (send_line msg payload f _ rest Hf Hi Hn). cbn [fst].
  now rewrite decoded_padded.
Qed.

Lemma send_ignores_white_space_witness :
  fst (send hello (connection (lit " [1, 2]" ++ [13; 10]) false))
  = Returns (PyList [PyInt 1; PyInt 2]).
Proof.
  apply (send_ignores_white_space hello _
           (connection (lit " [1, 2]" ++ [13; 10]) false)
           (lit " ") (lit "[1, 2]") [13] [] eq_refl eq_refl).
  - apply absent_check. reflexivity.
  - reflexivity.
  - reflexivity.
Defined.


(** ** [main] *)
















(** ** The values a call returns *)

Lemma keys_dict_set (k0 k : str) (v : pyvalue) (d : list (pyvalue * pyvalue)) :
  forallb (str_item json_shaped) d = true ->
  existsb (Str.eqb k0) (map fst (str_pairs d)) = false ->
  Str.eqb k0 k = false ->
  existsb (Str.eqb k0) (map fst (str_pairs (Json.dict_set k v d))) = false.
Proof.
  induction d as [|[k' v'] d IH]; intros Hd He Hk.
  - cbn. now rewrite Hk.
  - cbn [forallb] in Hd. apply andb_true_iff in Hd as [H1 H2].
    unfold str_item in H1. cbn [fst snd] in H1.
    destruct k'; try discriminate.
    cbn [str_pairs flat_map fst snd app map existsb] in He.
    fold (str_pairs d) in He.
    apply orb_false_iff in He as [He1 He2].
    cbn [Json.dict_set]. destruct (Str.eqb s k).
    + cbn [str_pairs flat_map fst snd app map existsb].
      fold (str_pairs d). now rewrite He1, He2.
    + cbn [str_pairs flat_map fst snd app map existsb].
      fold (str_pairs (Json.dict_set k v d)).
      now rewrite He1, IH.
Qed.

Lemma dict_set_shaped (k : str) (v : pyvalue) (d : list (pyvalue * pyvalue)) :
  json_shaped v = true ->
  dict_shaped d = true ->
  dict_shaped (Json.dict_set k v d) = true.
Proof.
  intros Hv. unfold dict_shaped.
  induction d as [|[k' v'] d IH]; intros H.
  - cbn. now rewrite Hv.
  - apply andb_true_iff in H as [Hd Hk].
    pose proof Hd as Hd'.
    cbn [forallb] in Hd. apply andb_true_iff in Hd as [H1 H2].
    unfold str_item in H1. cbn [fst snd] in H1.
    destruct k'; try discriminate.
    cbn [str_pairs flat_map fst snd app map distinct] in Hk.
    fold (str_pairs d) in Hk.
    apply andb_true_iff in Hk as [Hk1 Hk2]. apply negb_true_iff in Hk1.
    cbn [Json.dict_set]. destruct (Str.eqb s k) eqn:E.
    + cbn [forallb str_pairs flat_map fst snd app map distinct].
      fold (str_pairs d). unfold str_item at 1. cbn [fst snd].
      now rewrite Hv, H2, Hk1, Hk2.
    + cbn [forallb str_pairs flat_map fst snd app map distinct].
      fold (str_pairs (Json.dict_set k v d)).
      unfold str_item at 1. cbn [fst snd].
      assert (forallb (str_item json_shaped) d
              && distinct (map fst (str_pairs d)) = true) as Hd2
          by now rewrite H2, Hk2.
      apply IH in Hd2. apply andb_true_iff in Hd2 as [Ha Hb].
      rewrite H1, Ha, Hb, (keys_dict_set s k v d H2 Hk1 E). reflexivity.
Qed.

Lemma dict_of_shaped (pairs : list (str * pyvalue)) :
  pairs_shaped pairs = true ->
  dict_shaped (Json.dict_of pairs) = true.
Proof.
  unfold Json.dict_of.
  assert (forall d, dict_shaped d = true -> pairs_shaped pairs = true ->
                    dict_shaped
                      (fold_left (fun d kv => Json.dict_set (fst kv) (snd kv) d)
                                 pairs d) = true) as H.
  { induction pairs as [|[k v] pairs IH]; intros d Hd Hp; [exact Hd|].
    unfold pairs_shaped in Hp. cbn [forallb fst snd] in Hp.
    apply andb_true_iff in Hp as [Hv Hp].
    cbn [fold_left fst snd]. apply IH; [|exact Hp].
    now apply dict_set_shaped. }
  apply H. reflexivity.
Qed.

Lemma dict_value_shaped (pairs : list (str * pyvalue)) :
  pairs_shaped pairs = true ->
  json_shaped (PyDict (Json.dict_of (rev pairs))) = true.
Proof.
  intros H. cbn [json_shaped].
  assert (pairs_shaped (rev pairs) = true) as Hr.
  { unfold pairs_shaped in *. rewrite forallb_forall in *.
    intros x Hx. apply H. now apply in_rev. }
  apply dict_of_shaped in Hr. exact Hr.
Qed.

Lemma list_value_shaped (items : list pyvalue) :
  forallb json_shaped items = true ->
  json_shaped (PyList (rev items)) = true.
Proof.
  intros H. cbn [json_shaped]. rewrite forallb_forall in *.
  intros x Hx. apply H. now apply in_rev.
Qed.

Lemma deliver_shaped (v : pyvalue) (stack : list Json.frame) :
  json_shaped v = true ->
  forallb frame_shaped stack = true ->
  config_shaped (Json.deliver v stack) = true.
Proof.
  intros Hv Hs. unfold config_shaped.
  destruct stack as [|[items|pairs key] stack]; cbn [Json.deliver fst snd].
  - cbn. now rewrite Hv.
  - cbn [forallb frame_shaped] in Hs. apply andb_true_iff in Hs as [H1 H2].
    cbn [mode_shaped forallb]. now rewrite Hv, H1, H2.
  - cbn [forallb frame_shaped] in Hs. apply andb_true_iff in Hs as [H1 H2].
    cbn [mode_shaped]. unfold pairs_shaped in *. cbn [forallb snd].
    now rewrite Hv, H1, H2.
Qed.

Lemma after_shaped (cf cf' : Json.config) (c : N) :
  config_shaped cf = true ->
  Json.after cf c = Some cf' ->
  config_shaped cf' = true.
Proof.
  destruct cf as [m stack]. unfold config_shaped at 1. cbn [fst snd].
  intros H. apply andb_true_iff in H as [Hm Hs].
  destruct m; cbn [Json.after]; try discriminate; cbn [mode_shaped] in Hm.
  - destruct (Json.is_ws c).
    + intros [= <-]. unfold config_shaped. cbn [fst snd mode_shaped].
      now rewrite Hm, Hs.
    + destruct (c =? 44).
      * intros [= <-]. unfold config_shaped.
        cbn [fst snd mode_shaped forallb frame_shaped]. now rewrite Hm, Hs.
      * destruct (c =? 93); [|discriminate]. intros [= <-].
        apply deliver_shaped; [now apply list_value_shaped|exact Hs].
  - destruct (Json.is_ws c).
    + intros [= <-]. unfold config_shaped. cbn [fst snd mode_shaped].
      now rewrite Hm, Hs.
    + destruct (c =? 44).
      * intros [= <-]. unfold config_shaped.
        cbn [fst snd mode_shaped]. now rewrite Hm, Hs.
      * destruct (c =? 125); [|discriminate]. intros [= <-].
        apply deliver_shaped; [now apply dict_value_shaped|exact Hs].
  - destruct (Json.is_ws c); [|discriminate].
    intros [= <-]. unfold config_shaped. cbn [fst snd mode_shaped].
    now rewrite Hm, Hs.
Qed.

Lemma start_shaped (stack : list Json.frame) (cf' : Json.config) (c : N) :
  forallb frame_shaped stack = true ->
  Json.start stack c = Some cf' ->
  config_shaped cf' = true.
Proof.
  intros Hs. unfold Json.start.
  repeat match goal with
         | |- context [if ?b then _ else _] =>
             destruct b; [intros [= <-]; unfold config_shaped;
                          cbn [fst snd mode_shaped]; exact Hs|]
         end.
  discriminate.
Qed.

Lemma number_shaped (st : Json.nstate) (token : str) (v : pyvalue) :
  Json.number_value st token = Some v -> json_shaped v = true.
Proof.
  destruct st; cbn [Json.number_value]; try discriminate;
    try (destruct (Int.parse token); [|discriminate]);
    now intros [= <-].
Qed.

Lemma literal_shaped (l : Json.literal) :
  json_shaped (Json.literal_value l) = true.
Proof. now destruct l. Qed.

Lemma step_shaped (cf cf' : Json.config) (c : N) :
  config_shaped cf = true ->
  Json.step cf c = Some cf' ->
  config_shaped cf' = true.
Proof.
  intros H. pose proof H as H0. destruct cf as [m stack].
  unfold config_shaped in H. cbn [fst snd] in H.
  apply andb_true_iff in H as [Hm Hs].
  destruct m; cbn [Json.step]; cbn [mode_shaped] in Hm.
  - destruct (Json.is_ws c); [now intros [= <-]|]. now apply start_shaped.
  - destruct (Json.is_ws c); [now intros [= <-]|].
    destruct (c =? 93).
    + intros [= <-]. now apply deliver_shaped.
    + apply start_shaped. cbn [forallb frame_shaped]. exact Hs.
  - destruct (Json.is_ws c); [now intros [= <-]|].
    destruct (c =? 125).
    + intros [= <-]. now apply deliver_shaped.
    + destruct (c =? 34); [|discriminate]. intros [= <-].
      unfold config_shaped. cbn [fst snd mode_shaped]. exact Hs.
  - destruct (Json.is_ws c); [now intros [= <-]|].
    destruct (c =? 34); [|discriminate]. intros [= <-].
    unfold config_shaped. cbn [fst snd mode_shaped]. now rewrite Hm, Hs.
  - destruct (Json.sstep out st c) as [[o s|s]|]; [| |discriminate];
      intros [= <-]; unfold config_shaped; cbn [fst snd mode_shaped];
      now rewrite Hm, Hs.
  - destruct (Json.is_ws c); [now intros [= <-]|].
    destruct (c =? 58); [|discriminate]. intros [= <-].
    unfold config_shaped. cbn [fst snd mode_shaped forallb frame_shaped].
    now rewrite Hm, Hs.
  - destruct (Json.sstep out st c) as [[o s|s]|]; [| |discriminate];
      intros [= <-].
    + unfold config_shaped. cbn [fst snd mode_shaped]. exact Hs.
    + now apply deliver_shaped.
  - destruct (Json.nstep st c); try discriminate.
    + intros [= <-]. unfold config_shaped. cbn [fst snd mode_shaped].
      exact Hs.
    + intros [= <-]. unfold config_shaped. cbn [fst snd mode_shaped].
      exact Hs.
    + destruct (Json.number_value st token) as [v|] eqn:E; [|discriminate].
      apply after_shaped. apply deliver_shaped; [|exact Hs].
      now apply number_shaped in E.
  - destruct (nth_error (Json.literal_text l) seen); [|discriminate].
    destruct (c =? n); [|discriminate].
    destruct (Nat.eqb (S seen) (List.length (Json.literal_text l)));
      intros [= <-].
    + apply deliver_shaped; [apply literal_shaped|exact Hs].
    + unfold config_shaped. cbn [fst snd mode_shaped]. exact Hs.
  - now apply after_shaped.
  - now apply after_shaped.
  - now apply after_shaped.
Qed.

Lemma run_shaped (text : str) (cf : Json.config) :
  fold_left Json.feed text (Some (Json.Value, [])) = Some cf ->
  config_shaped cf = true.
Proof.
  revert cf. induction text as [|c text IH] using rev_ind; intros cf.
  - now intros [= <-].
  - rewrite fold_left_app. cbn [fold_left].
    destruct (fold_left Json.feed text (Some (Json.Value, []))) as [cf0|];
      [|discriminate].
    cbn [Json.feed]. apply step_shaped. now apply IH.
Qed.

Lemma loads_shaped (text : str) (v : pyvalue) :
  Json.loads_text text = Some v -> json_shaped v = true.
Proof.
  unfold Json.loads_text.
  destruct (fold_left Json.feed text (Some (Json.Value, [])))
    as [[m stack]|] eqn:E; [|discriminate].
  apply run_shaped in E. unfold config_shaped in E. cbn [fst snd] in E.
  apply andb_true_iff in E as [Hm _].
  destruct m; cbn [Json.finish]; try discriminate.
  - destruct stack; [|discriminate]. apply number_shaped.
  - destruct stack; [|discriminate]. now intros [= <-].
Qed.

Lemma decoded_shaped (data : bytes) (v : pyvalue) :
  decoded data = Ok v -> json_shaped v = true.
Proof.
  unfold decoded, Utf8.decode, Json.loads.
  destruct (Utf8.decode_chars data) as [text|]; [|discriminate].
  destruct (Json.loads_text text) as [v'|] eqn:E; [|discriminate].
  intros [= <-]. now apply loads_shaped in E.
Qed.

(** X11: a value that a call returns is an object that JSON describes:
    it holds no [bytes] and no tuple, and the keys of each of its dicts
    are strings, no two of them equal. *)
Theorem send_returns_json (msg : pyvalue) (f : sock_file) (v : pyvalue) :
  fst (send msg f) = Returns v -> json_shaped v = true.
Proof.
  destruct (frame_of msg) as [payload|e] eqn:Hf.
  - destruct (send_cases msg payload f Hf)
      as [(_ & _ & ->)|(line & rest & _ & ->)]; cbn [fst]; [discriminate|].
    destruct line as [|b line]; cbn [reply]; [discriminate|].
    destruct (decoded (b :: line)) as [v'|e] eqn:Hd; cbn [answer];
      [|discriminate].
    intros [= <-]. now apply decoded_shaped in Hd.
  - rewrite (send_not_serializable msg e f Hf). discriminate.
Qed.

Lemma send_returns_json_witness :
  json_shaped (PyDict [(PyStr (lit "a"), PyInt 2)]) = true.
Proof.
  apply (send_returns_json hello
           (connection (lit "{" ++ quoted "a" ++ lit ": 1, " ++ quoted "a"
                        ++ lit ": 2}" ++ [newline]) false)).
  reflexivity.
Defined.
